(** * ClawGuard client core: tool enforcer, policy cache, audit logger,
      kill-switch heartbeat.

    A shallow embedding of the TypeScript sources

      - policy/tool-enforcer.ts      ([normalizeToolName], [expandGroups],
                                      [createToolEnforcerHook])
      - policy/org-policy-cache.ts   ([loadCachedPolicy], [saveCachedPolicy],
                                      [loadCachedPolicyFallback])
      - audit/audit-logger.ts        (class [AuditLogger])
      - heartbeat/kill-switch.ts     (class [KillSwitchManager])

    Conventions of the embedding.

      - A JavaScript string is a sequence of UTF-16 code units.  The model
        covers the code units U+0000..U+00FF, one [ascii] per code unit, so
        a [string] here is a JavaScript string over that range.
      - An object literal used as a table ([Record<string, T>]) is a
        [gmap string T] of its own properties; reading it with [obj[key]]
        also finds the properties it inherits from [Object.prototype]
        ([PlainObject.get]).
      - JavaScript numbers that hold counters, sizes and millisecond clocks
        are [Z].
      - A function that can throw returns a [result]; [try]/[catch] is
        [try_catch].  An [async] function is cut at its [await]: the part
        before it returns the pending request, the part after it is a
        function of the request's outcome and of the state found when the
        promise settles.
      - The disk is a [gmap] from paths to file contents and is reliable:
        writes succeed, and the only file-system errors are those of
        reading or unlinking a file that does not exist.  Where the source
        has a handler whose outcome depends on a write that throws (the
        policy save at start-up and on refresh), the disk comes with a flag
        that says whether writes succeed ([Initialize.Storage]). *)

From Stdlib Require Import ZArith Ascii String List Bool Lia.
From stdpp Require Import base option gmap strings list fin_maps.

Local Open Scope string_scope.
Local Open Scope list_scope.
Local Open Scope Z_scope.

(* ===================================================================== *)
(** * JavaScript strings                                                  *)
(* ===================================================================== *)

Module JSString.

(** [WhiteSpace] and [LineTerminator] code units below U+0100: TAB, LF,
    VT, FF, CR, SP and NBSP.  These are what [String.prototype.trim]
    removes. *)
Definition isWhiteSpace (c : ascii) : bool :=
  let n := N_of_ascii c in
  ((9 <=? n) && (n <=? 13) || (n =? 32) || (n =? 160))%N.

(** Upper-case code units below U+0100: A..Z and the Latin-1 capitals
    U+00C0..U+00DE without the multiplication sign U+00D7.  Each one has
    its lower-case form 32 code units further. *)
Definition isUpper (c : ascii) : bool :=
  let n := N_of_ascii c in
  ((65 <=? n) && (n <=? 90)
   || (192 <=? n) && (n <=? 222) && negb (n =? 215))%N.

Definition lowerChar (c : ascii) : ascii :=
  if isUpper c then ascii_of_N (N_of_ascii c + 32) else c.

(** [s.toLowerCase()] *)
Fixpoint toLowerCase (s : string) : string :=
  match s with
  | EmptyString => EmptyString
  | String c s' => String (lowerChar c) (toLowerCase s')
  end.

(** [s.trimStart()] *)
Fixpoint trimStart (s : string) : string :=
  match s with
  | EmptyString => EmptyString
  | String c s' => if isWhiteSpace c then trimStart s' else s
  end.

(** [s.trimEnd()] *)
Fixpoint trimEnd (s : string) : string :=
  match s with
  | EmptyString => EmptyString
  | String c s' =>
      match trimEnd s' with
      | EmptyString => if isWhiteSpace c then EmptyString
                       else String c EmptyString
      | r => String c r
      end
  end.

(** [s.trim()] *)
Definition trim (s : string) : string := trimEnd (trimStart s).

(** [s.split(sep)] for a one-code-unit separator.  The result is never
    empty: splitting the empty string gives one empty piece. *)
Fixpoint split (sep : ascii) (s : string) : list string :=
  match s with
  | EmptyString => [EmptyString]
  | String c s' =>
      if Ascii.eqb c sep then EmptyString :: split sep s'
      else match split sep s' with
           | h :: t => String c h :: t
           | [] => [String c EmptyString]
           end
  end.

(** [xs.join(sep)] *)
Definition join (sep : string) (xs : list string) : string :=
  String.concat sep xs.

(** [Boolean(s)]: the empty string is the only falsy string. *)
Definition truthy (s : string) : bool :=
  match s with EmptyString => false | _ => true end.

(** Whether a code unit occurs in a string. *)
Fixpoint occurs (c : ascii) (s : string) : bool :=
  match s with
  | EmptyString => false
  | String d s' => Ascii.eqb d c || occurs c s'
  end.

Definition firstChar (s : string) : option ascii :=
  match s with EmptyString => None | String c _ => Some c end.

Fixpoint lastChar (s : string) : option ascii :=
  match s with
  | EmptyString => None
  | String c EmptyString => Some c
  | String _ s' => lastChar s'
  end.

End JSString.

(** The line feed, ["\n"] in the source. *)
Definition LF : ascii := ascii_of_N 10.
Definition LFs : string := String LF EmptyString.

(* ===================================================================== *)
(** * Errors                                                              *)
(* ===================================================================== *)

Inductive JSError : Type :=
| ENOENT                       (* fs: no such file *)
| SyntaxError                  (* JSON.parse *)
| TypeError                    (* a call or a property read on a value
                                  that does not allow it *)
| EACCES                       (* fs: the write is refused *)
| NetworkError (msg : string)  (* fetch rejected *)
| UserError (msg : string).    (* thrown by injected code *)

Inductive result (A : Type) : Type :=
| Ok (a : A)
| Throw (e : JSError).
Arguments Ok {A} a.
Arguments Throw {A} e.

Definition rbind {A B} (m : result A) (k : A -> result B) : result B :=
  match m with
  | Ok a => k a
  | Throw e => Throw e
  end.

Definition try_catch {A} (body : result A) (handler : JSError -> result A)
  : result A :=
  match body with
  | Ok a => Ok a
  | Throw e => handler e
  end.

Notation "'do!' x <- m ; k" := (rbind m (fun x => k))
  (at level 10, x name, m at level 100, k at level 200).

(* ===================================================================== *)
(** * Plain objects                                                       *)
(* ===================================================================== *)

Module PlainObject.

(** The properties of [Object.prototype], which every object literal
    inherits: eleven functions and the accessor [__proto__], whose value
    on an object literal is [Object.prototype] itself. *)
Inductive Member : Type :=
| Object_constructor
| Object_defineGetter
| Object_defineSetter
| Object_hasOwnProperty
| Object_lookupGetter
| Object_lookupSetter
| Object_isPrototypeOf
| Object_propertyIsEnumerable
| Object_toString
| Object_valueOf
| Object_proto
| Object_toLocaleString.

Definition Object_prototype : gmap string Member :=
  list_to_map
    [ ("constructor", Object_constructor);
      ("__defineGetter__", Object_defineGetter);
      ("__defineSetter__", Object_defineSetter);
      ("hasOwnProperty", Object_hasOwnProperty);
      ("__lookupGetter__", Object_lookupGetter);
      ("__lookupSetter__", Object_lookupSetter);
      ("isPrototypeOf", Object_isPrototypeOf);
      ("propertyIsEnumerable", Object_propertyIsEnumerable);
      ("toString", Object_toString);
      ("valueOf", Object_valueOf);
      ("__proto__", Object_proto);
      ("toLocaleString", Object_toLocaleString) ].

(** What [obj[key]] yields on an object literal with own properties
    [obj]. *)
Inductive Property (A : Type) : Type :=
| Own (a : A)
| FromPrototype (m : Member)
| Undefined.
Arguments Own {A} a.
Arguments FromPrototype {A} m.
Arguments Undefined {A}.

Definition get {A : Type} (obj : gmap string A) (key : string) : Property A :=
  match obj !! key with
  | Some a => Own a
  | None =>
      match Object_prototype !! key with
      | Some m => FromPrototype m
      | None => Undefined
      end
  end.

(** [String(m)], the text a member turns into when it is used as a
    property key: the source text of a built-in function, and
    ["[object Object]"] for [Object.prototype]. *)
Definition nativeFunction (name : string) : string :=
  "function " +:+ name +:+ "() { [native code] }".

Definition memberToString (m : Member) : string :=
  match m with
  | Object_constructor => nativeFunction "Object"
  | Object_defineGetter => nativeFunction "__defineGetter__"
  | Object_defineSetter => nativeFunction "__defineSetter__"
  | Object_hasOwnProperty => nativeFunction "hasOwnProperty"
  | Object_lookupGetter => nativeFunction "__lookupGetter__"
  | Object_lookupSetter => nativeFunction "__lookupSetter__"
  | Object_isPrototypeOf => nativeFunction "isPrototypeOf"
  | Object_propertyIsEnumerable => nativeFunction "propertyIsEnumerable"
  | Object_toString => nativeFunction "toString"
  | Object_valueOf => nativeFunction "valueOf"
  | Object_proto => "[object Object]"
  | Object_toLocaleString => nativeFunction "toLocaleString"
  end.

#[global] Instance Member_eq_dec : EqDecision Member.
Proof. solve_decision. Defined.

Definition Member_index (m : Member) : nat :=
  match m with
  | Object_constructor => 0 | Object_defineGetter => 1
  | Object_defineSetter => 2 | Object_hasOwnProperty => 3
  | Object_lookupGetter => 4 | Object_lookupSetter => 5
  | Object_isPrototypeOf => 6 | Object_propertyIsEnumerable => 7
  | Object_toString => 8 | Object_valueOf => 9
  | Object_proto => 10 | Object_toLocaleString => 11
  end%nat.

Definition Member_of_index (n : nat) : Member :=
  match n with
  | 0 => Object_constructor | 1 => Object_defineGetter
  | 2 => Object_defineSetter | 3 => Object_hasOwnProperty
  | 4 => Object_lookupGetter | 5 => Object_lookupSetter
  | 6 => Object_isPrototypeOf | 7 => Object_propertyIsEnumerable
  | 8 => Object_toString | 9 => Object_valueOf
  | 10 => Object_proto | _ => Object_toLocaleString
  end%nat.

#[global] Instance Member_countable : Countable Member.
Proof.
  apply (inj_countable' Member_index Member_of_index). now intros [].
Defined.

End PlainObject.

(** What [normalizeToolName] returns, and so what the hook looks up and
    audits as the tool name: a string, or a member of [Object.prototype]
    that the alias table let through. *)
Inductive ToolKey : Type :=
| Name (s : string)
| Inherited (m : PlainObject.Member).

Coercion Name : string >-> ToolKey.

#[global] Instance ToolKey_eq_dec : EqDecision ToolKey.
Proof. solve_decision. Defined.

#[global] Instance ToolKey_countable : Countable ToolKey.
Proof.
  apply (inj_countable'
           (fun k => match k with Name s => inl s | Inherited m => inr m end)
           (fun x => match x with inl s => Name s | inr m => Inherited m end)).
  now intros [].
Defined.

(** [String(k)] *)
Definition keyString (k : ToolKey) : string :=
  match k with
  | Name s => s
  | Inherited m => PlainObject.memberToString m
  end.

(* ===================================================================== *)
(** * types.ts                                                            *)
(* ===================================================================== *)

Inductive AuditLevel : Type := full | metadata | off.

(** [a === b] on audit levels. *)
Definition AuditLevel_eqb (a b : AuditLevel) : bool :=
  match a, b with
  | full, full | metadata, metadata | off, off => true
  | _, _ => false
  end.

(** Values of type [unknown] that sit in event metadata: JSON data. *)
#[warnings="-register-all"]
Inductive JSValue : Type :=
| JNull
| JBool (b : bool)
| JNum (n : Z)
| JStr (s : string)
| JArr (xs : list JSValue)
| JObj (fields : list (string * JSValue)).

(** [Record<string, unknown>] written as an object literal: its fields in
    source order. *)
Definition Metadata : Type := list (string * JSValue).

Record ApprovedSkill : Type := {
  skill_name : string;
  skill_key : string;
  skill_scope_org : bool            (* "org" | "self" *)
}.

Record ToolsPolicy : Type := {
  allow : option (list string);
  deny : option (list string);
  profile : option string
}.

Record OrgPolicy : Type := {
  version : Z;
  tools : ToolsPolicy;
  skills_approved : list ApprovedSkill;
  skills_requireApproval : bool;
  killSwitch_active : bool;
  killSwitch_message : option string;
  policy_auditLevel : AuditLevel
}.

Record HeartbeatResponse : Type := {
  policyVersion : Z;
  killSwitch : bool;
  killSwitchMessage : option string;
  refreshPolicyNow : bool
}.

Inductive AuditEventType : Type :=
| tool_call_attempt | tool_call_result | session_start | session_end
| llm_input | llm_output | kill_switch_activated | policy_refresh.

Inductive Outcome : Type := allowed | blocked | error | success.

Record AuditEvent : Type := {
  ev_userId : string;
  ev_orgId : string;
  ev_agentId : option string;
  ev_sessionKey : option string;
  ev_eventType : AuditEventType;
  ev_toolName : option ToolKey;
  ev_timestamp : Z;
  ev_outcome : Outcome;
  ev_metadata : option Metadata
}.

(** The parsed content of the cache file.  [ttlMs] is optional on this
    side: [loadCachedPolicy] reads it through [??]. *)
Record CachedPolicy : Type := {
  cached_policy : OrgPolicy;
  fetchedAt : Z;
  ttlMs : option Z
}.

(** [AuditLoggerEnqueueParams] of audit/audit-logger.ts, the argument of
    [AuditLogger.enqueue], declared here for its two users. *)
Record AuditLoggerEnqueueParams : Type := {
  p_eventType : AuditEventType;
  p_toolName : option ToolKey;
  p_outcome : Outcome;
  p_agentId : option string;
  p_sessionKey : option string;
  p_metadata : option Metadata
}.

(** The fields of [ClawGuardPluginConfig] and [SessionTokens] read by the
    components below. *)
Record ClawGuardPluginConfig : Type := {
  cfg_controlPlaneUrl : option string;
  cfg_orgId : option string;
  cfg_policyCacheTtlMs : option Z;
  cfg_heartbeatIntervalMs : option Z;
  cfg_heartbeatFailureThreshold : option Z;
  cfg_auditBatchSize : option Z;
  cfg_auditFlushIntervalMs : option Z
}.

Record SessionTokens : Type := {
  ses_accessToken : string;
  ses_userId : string;
  ses_orgId : string
}.

(** [JSON.stringify] and [JSON.parse] at one type of document.  [JSON.parse]
    throws a [SyntaxError] on text that is not JSON; the cast of its result
    to the document type is taken as the source writes it. *)
Class JSON (A : Type) : Type := {
  JSON_stringify : A -> string;
  JSON_parse : string -> result A
}.

(* ===================================================================== *)
(** * node:fs                                                             *)
(* ===================================================================== *)

Module FS.

Abbreviation Disk := (gmap string string).

Definition readFileSync (disk : Disk) (path : string) : result string :=
  match disk !! path with
  | Some data => Ok data
  | None => Throw ENOENT
  end.

Definition writeFileSync (disk : Disk) (path data : string) : result Disk :=
  Ok (<[path := data]> disk).

Definition unlinkSync (disk : Disk) (path : string) : result Disk :=
  match disk !! path with
  | Some _ => Ok (delete path disk)
  | None => Throw ENOENT
  end.

(** [fs.mkdirSync(dir, { recursive: true })]; directories are not part of
    the disk model. *)
Definition mkdirSync (disk : Disk) (dir : string) : result Disk := Ok disk.

End FS.

(** [path.join(os.homedir(), ".openclaw", "clawguard")], the home directory
    written [~]. *)
Definition CLAWGUARD_DIR : string := "~/.openclaw/clawguard".

(* ===================================================================== *)
(** * policy/tool-enforcer.ts                                             *)
(* ===================================================================== *)

Module ToolEnforcer.

Import JSString.

Definition TOOL_NAME_ALIASES : gmap string string :=
  list_to_map [ ("bash", "exec"); ("apply-patch", "apply_patch") ].

(** [TOOL_NAME_ALIASES[normalized] ?? normalized]: an own alias, or what
    the table inherits under that key (a function or an object, neither
    of them nullish), or the name itself. *)
Definition normalizeToolName (name : string) : ToolKey :=
  let normalized := toLowerCase (trim name) in
  match PlainObject.get TOOL_NAME_ALIASES normalized with
  | PlainObject.Own alias => Name alias
  | PlainObject.FromPrototype m => Inherited m
  | PlainObject.Undefined => Name normalized
  end.

Definition TOOL_GROUPS : gmap string (list string) :=
  list_to_map
    [ ("group:memory", ["memory_search"; "memory_get"]);
      ("group:web", ["web_search"; "web_fetch"]);
      ("group:fs", ["read"; "write"; "edit"; "apply_patch"]);
      ("group:runtime", ["exec"; "process"]);
      ("group:sessions",
         ["sessions_list"; "sessions_history"; "sessions_send";
          "sessions_spawn"; "subagents"; "session_status"]);
      ("group:ui", ["browser"; "canvas"]);
      ("group:automation", ["cron"; "gateway"]);
      ("group:messaging", ["message"]);
      ("group:nodes", ["nodes"]) ].

(** [expanded.add(x)] on the [Set]. *)
Definition set_add (x : ToolKey) (s : gset ToolKey) : gset ToolKey := {[x]} ∪ s.

(** [s.has(x)] *)
Definition set_has (s : gset ToolKey) (x : ToolKey) : bool :=
  bool_decide (x ∈ s).

(** [TOOL_GROUPS[normalized]] turns its key into a string.  A value the
    table inherits is truthy and not iterable, so [for ... of] on it
    throws; no normalized key reads one ([group_lookup_not_inherited]
    below), and the set is left as it is in that branch. *)
Definition expandGroups (list : list string) : gset ToolKey :=
  foldl (fun expanded entry =>
           let normalized := normalizeToolName entry in
           match PlainObject.get TOOL_GROUPS (keyString normalized) with
           | PlainObject.Own group =>
               foldl (fun acc tool => set_add (Name tool) acc) expanded group
           | PlainObject.FromPrototype _ => expanded
           | PlainObject.Undefined => set_add normalized expanded
           end)
        ∅ list.

Record ToolEnforcerState : Type := {
  policy : option OrgPolicy;
  killSwitchActive : bool;
  killSwitchMessage_ : option string
}.

(** The fields of [PluginHookBeforeToolCallEvent] and
    [PluginHookToolContext] that the hook reads. *)
Record BeforeToolCallEvent : Type := { toolName : string }.

Record ToolContext : Type := {
  agentId : option string;
  sessionKey : option string
}.

Record BeforeToolCallResult : Type := {
  block : bool;
  blockReason : string
}.

(** The hook's one effect is to call [auditLogger.enqueue]; a run of the
    hook yields its return value ([None] is [undefined]) together with the
    arguments of those calls, in order. *)
Definition Hook (A : Type) : Type := (A * list AuditLoggerEnqueueParams)%type.

Definition hook_return {A} (a : A) : Hook A := (a, []).

Definition hook_enqueue (p : AuditLoggerEnqueueParams) : Hook unit := (tt, [p]).

Definition hook_seq {A} (m : Hook unit) (k : Hook A) : Hook A :=
  (fst k, (snd m ++ snd k)%list).

Definition attempt (toolName : ToolKey) (outcome : Outcome)
    (ctx : ToolContext) (md : option Metadata) : AuditLoggerEnqueueParams :=
  {| p_eventType := tool_call_attempt;
     p_toolName := Some toolName;
     p_outcome := outcome;
     p_agentId := agentId ctx;
     p_sessionKey := sessionKey ctx;
     p_metadata := md |}.

Definition reason (r : string) : option Metadata := Some [("reason", JStr r)].

(** [xs && xs.length > 0] on an optional array. *)
Definition nonEmptyList (xs : option (list string)) : option (list string) :=
  match xs with
  | Some (x :: l) => Some (x :: l)
  | _ => None
  end.

(** The double quote that the template literals put around a tool name. *)
Definition DQUOTE : string := String (ascii_of_N 34) EmptyString.

Definition DEFAULT_KILL_MESSAGE : string :=
  "ClawGuard: All tool calls blocked by organization kill switch".

Definition createToolEnforcerHook (state : ToolEnforcerState)
    (event : BeforeToolCallEvent) (ctx : ToolContext)
  : Hook (option BeforeToolCallResult) :=
  let toolName_ := normalizeToolName (toolName event) in
  (* 1. Kill switch check *)
  if killSwitchActive state then
    let reason_ := default DEFAULT_KILL_MESSAGE (killSwitchMessage_ state) in
    hook_seq (hook_enqueue (attempt toolName_ blocked ctx (reason "kill_switch")))
             (hook_return (Some {| block := true; blockReason := reason_ |}))
  else
  match policy state with
  | None =>
      (* No policy loaded - allow by default *)
      hook_seq (hook_enqueue (attempt toolName_ allowed ctx (reason "no_policy")))
               (hook_return None)
  | Some policy =>
      let denied :=
        match nonEmptyList (deny (tools policy)) with
        | Some l => set_has (expandGroups l) toolName_
        | None => false
        end in
      (* 2. Deny list check *)
      if denied then
        hook_seq (hook_enqueue (attempt toolName_ blocked ctx (reason "deny_list")))
                 (hook_return (Some
                    {| block := true;
                       blockReason :=
                         "ClawGuard: Tool " +:+ DQUOTE +:+ toolName event +:+
                         DQUOTE +:+ " is blocked by organization policy" |}))
      else
      let unlisted :=
        match nonEmptyList (allow (tools policy)) with
        | Some l => negb (set_has (expandGroups l) toolName_)
        | None => false
        end in
      (* 3. Allow list check *)
      if unlisted then
        hook_seq (hook_enqueue
                    (attempt toolName_ blocked ctx (reason "not_in_allowlist")))
                 (hook_return (Some
                    {| block := true;
                       blockReason :=
                         "ClawGuard: Tool " +:+ DQUOTE +:+ toolName event +:+
                         DQUOTE +:+
                         " is not in the organization's allowed tools list" |}))
      else
        (* 4. Allowed *)
        hook_seq (hook_enqueue (attempt toolName_ allowed ctx None))
                 (hook_return None)
  end.


End ToolEnforcer.

(* ===================================================================== *)
(** * policy/org-policy-cache.ts                                          *)
(* ===================================================================== *)

Module OrgPolicyCache.

Import FS.

Definition CACHE_FILE : string := CLAWGUARD_DIR +:+ "/org-policy.json".
Definition DEFAULT_TTL_MS : Z := 60 * 60 * 1000.

Definition ensureDir (disk : Disk) : result Disk := mkdirSync disk CLAWGUARD_DIR.

Section Cache.
Context {codec : JSON CachedPolicy}.

(** [now] is the value of [Date.now()] during the call; [None] as result
    is [null]. *)
Definition loadCachedPolicy (disk : Disk) (now : Z) (ttlMs_ : option Z)
  : result (option OrgPolicy) :=
  try_catch
    (do! raw <- readFileSync disk CACHE_FILE;
     do! cached <- JSON_parse raw;
     let ttl := default (default DEFAULT_TTL_MS (ttlMs cached)) ttlMs_ in
     if now - fetchedAt cached >? ttl then
       Ok None (* Cache expired *)
     else Ok (Some (cached_policy cached)))
    (fun _ => Ok None).

Definition saveCachedPolicy (disk : Disk) (now : Z) (policy : OrgPolicy)
    (ttlMs_ : option Z) : result Disk :=
  do! disk <- ensureDir disk;
  let cached :=
    {| cached_policy := policy;
       fetchedAt := now;
       ttlMs := Some (default DEFAULT_TTL_MS ttlMs_) |} in
  writeFileSync disk CACHE_FILE (JSON_stringify cached).

Definition loadCachedPolicyFallback (disk : Disk) : result (option OrgPolicy) :=
  try_catch
    (do! raw <- readFileSync disk CACHE_FILE;
     do! cached <- JSON_parse raw;
     Ok (Some (cached_policy cached)))
    (fun _ => Ok None).

End Cache.

End OrgPolicyCache.

(* ===================================================================== *)
(** * audit/audit-logger.ts                                               *)
(* ===================================================================== *)

Module AuditLogger.

Import FS.

Definition BUFFER_FILE : string := CLAWGUARD_DIR +:+ "/audit-buffer.jsonl".

Definition DEFAULT_BATCH_SIZE : Z := 100.
Definition DEFAULT_FLUSH_INTERVAL_MS : Z := 30000.

(** The private fields of the class. [flushTimer] records whether the
    interval timer is set.  The optional [logger] only receives
    diagnostics ([this.logger?.warn(...)]) and is left out. *)
Record t : Type := {
  buffer : list AuditEvent;
  flushTimer : bool;
  batchSize : Z;
  flushIntervalMs : Z;
  controlPlaneUrl : string;
  orgId : string;
  userId : string;
  accessToken : string;
  auditLevel : AuditLevel
}.

Definition set_buffer (b : list AuditEvent) (this : t) : t :=
  {| buffer := b; flushTimer := flushTimer this; batchSize := batchSize this;
     flushIntervalMs := flushIntervalMs this;
     controlPlaneUrl := controlPlaneUrl this; orgId := orgId this;
     userId := userId this; accessToken := accessToken this;
     auditLevel := auditLevel this |}.

Definition set_flushTimer (b : bool) (this : t) : t :=
  {| buffer := buffer this; flushTimer := b; batchSize := batchSize this;
     flushIntervalMs := flushIntervalMs this;
     controlPlaneUrl := controlPlaneUrl this; orgId := orgId this;
     userId := userId this; accessToken := accessToken this;
     auditLevel := auditLevel this |}.

(** The POST of [flush]: the control plane and organisation that make up
    its URL, the bearer token, and the events of its body
    [{ events: batch }]. *)
Record Request : Type := {
  req_controlPlaneUrl : string;
  req_orgId : string;
  req_accessToken : string;
  req_events : list AuditEvent
}.

(** How an awaited [fetch] settles: it rejects, or it resolves to a
    response with a status. *)
Inductive FetchOutcome : Type :=
| Rejected (err : JSError)
| Responded (status : Z).

(** [response.ok] *)
Definition ok (status : Z) : bool := (200 <=? status) && (status <=? 299).

(** A logger, the disk, and the flushes suspended at [await fetch(...)].
    The batch a suspended flush holds is the body of its request. *)
Record World : Type := {
  logger : t;
  disk : Disk;
  inflight : list Request
}.

Section Logger.
Context {codec : JSON AuditEvent}.

(** The text [persistBuffer] writes for a list of events. *)
Definition snapshot (events : list AuditEvent) : string :=
  JSString.join LFs (map JSON_stringify events) +:+ LFs.

Definition persistBuffer (disk : Disk) (events : list AuditEvent) : result Disk :=
  try_catch
    (do! disk <- mkdirSync disk CLAWGUARD_DIR;
     let lines := JSString.join LFs (map JSON_stringify events) in
     writeFileSync disk BUFFER_FILE (lines +:+ LFs))
    (fun _ => Ok disk) (* Best effort. *).

Definition clearPersistedBuffer (disk : Disk) : result Disk :=
  try_catch (unlinkSync disk BUFFER_FILE) (fun _ => Ok disk) (* Ignore. *).

(** [for (const x of xs) body] over a state that the body may change. *)
Fixpoint for_of {A S : Type} (xs : list A) (body : S -> A -> result S) (s : S)
  : result S :=
  match xs with
  | [] => Ok s
  | x :: xs' => do! s' <- body s x; for_of xs' body s'
  end.

Definition loadPersistedBuffer (this : t) (disk : Disk) : result t :=
  try_catch
    (do! raw <- readFileSync disk BUFFER_FILE;
     let lines := filter (fun l => JSString.truthy l = true)
                         (JSString.split LF (JSString.trim raw)) in
     for_of lines
       (fun this line =>
          try_catch
            (do! e <- JSON_parse line;
             Ok (set_buffer (buffer this ++ [e]) this))
            (fun _ => Ok this) (* Skip malformed lines. *))
       this)
    (fun _ => Ok this) (* No persisted buffer. *).

(** [new AuditLogger({ config, session, auditLevel })] *)
Definition new (config : ClawGuardPluginConfig) (session : SessionTokens)
    (auditLevel_ : option AuditLevel) (disk : Disk) : result t :=
  let this :=
    {| buffer := [];
       flushTimer := false;
       batchSize := default DEFAULT_BATCH_SIZE (cfg_auditBatchSize config);
       flushIntervalMs :=
         default DEFAULT_FLUSH_INTERVAL_MS (cfg_auditFlushIntervalMs config);
       controlPlaneUrl := default EmptyString (cfg_controlPlaneUrl config);
       orgId := ses_orgId session;
       userId := ses_userId session;
       accessToken := ses_accessToken session;
       auditLevel := default metadata auditLevel_ |} in
  (* Load any unshipped events from disk. *)
  loadPersistedBuffer this disk.

Definition updateAuditLevel (level : AuditLevel) (this : t) : t :=
  {| buffer := buffer this; flushTimer := flushTimer this;
     batchSize := batchSize this; flushIntervalMs := flushIntervalMs this;
     controlPlaneUrl := controlPlaneUrl this; orgId := orgId this;
     userId := userId this; accessToken := accessToken this;
     auditLevel := level |}.

Definition with_logger (f : t -> t) (w : World) : World :=
  {| logger := f (logger w); disk := disk w; inflight := inflight w |}.

(** [flush()] up to its [await]: with nothing buffered it returns; else it
    detaches the buffer ([splice(0)]) and, without a control plane,
    persists the batch and returns; with one, it issues the POST and
    suspends. *)
Definition flush (w : World) : result World :=
  let this := logger w in
  if (Z.of_nat (length (buffer this)) =? 0) then Ok w
  else
    let batch := buffer this in
    let this := set_buffer [] this in
    if String.eqb (controlPlaneUrl this) EmptyString then
      (* No control plane configured; persist to disk. *)
      do! disk' <- persistBuffer (disk w) batch;
      Ok {| logger := this; disk := disk'; inflight := inflight w |}
    else
      let request :=
        {| req_controlPlaneUrl := controlPlaneUrl this;
           req_orgId := orgId this;
           req_accessToken := accessToken this;
           req_events := batch |} in
      Ok {| logger := this; disk := disk w;
            inflight := inflight w ++ [request] |}.

(** The rest of [flush()], run when the POST of [request] settles, on the
    logger and disk as they are then. *)
Definition flush_settled (request : Request) (outcome : FetchOutcome)
    (this : t) (disk : Disk) : result (t * Disk) :=
  let batch := req_events request in
  let put_back :=
    (* Put events back and persist for retry. *)
    let this := set_buffer (batch ++ buffer this) this in
    do! disk' <- persistBuffer disk (buffer this);
    Ok (this, disk') in
  match outcome with
  | Responded status =>
      if negb (ok status) then put_back
      else
        (* Clear persisted buffer on success. *)
        do! disk' <- clearPersistedBuffer disk;
        Ok (this, disk')
  | Rejected _ => put_back
  end.

(** The [i]-th suspended flush resumes with [outcome]. *)
Definition settle (i : nat) (outcome : FetchOutcome) (w : World) : result World :=
  match inflight w !! i with
  | None => Ok w
  | Some request =>
      do! r <- flush_settled request outcome (logger w) (disk w);
      Ok {| logger := fst r; disk := snd r; inflight := delete i (inflight w) |}
  end.

(** [enqueue(params)], with [now] the value of [Date.now()].  The flush it
    may start is not awaited: it runs up to its [await] within the call. *)
Definition enqueue (now : Z) (params : AuditLoggerEnqueueParams) (w : World)
  : result World :=
  let this := logger w in
  if AuditLevel_eqb (auditLevel this) off then Ok w
  else
    let event :=
      {| ev_userId := userId this;
         ev_orgId := orgId this;
         ev_agentId := p_agentId params;
         ev_sessionKey := p_sessionKey params;
         ev_eventType := p_eventType params;
         ev_toolName := p_toolName params;
         ev_timestamp := now;
         ev_outcome := p_outcome params;
         ev_metadata := if AuditLevel_eqb (auditLevel this) full
                        then p_metadata params else None |} in
    let this := set_buffer (buffer this ++ [event]) this in
    let w := {| logger := this; disk := disk w; inflight := inflight w |} in
    if Z.of_nat (length (buffer this)) >=? batchSize this then flush w
    else Ok w.

(** [start()] and the synchronous part of [stop()]. *)
Definition start (this : t) : t :=
  if flushTimer this then this else set_flushTimer true this.

Definition stop (w : World) : result World :=
  flush (with_logger (set_flushTimer false) w).

End Logger.

End AuditLogger.

(* ===================================================================== *)
(** * heartbeat/kill-switch.ts                                            *)
(* ===================================================================== *)

Module KillSwitchManager.

Import ToolEnforcer.

Definition DEFAULT_INTERVAL_MS : Z := 30000.
Definition DEFAULT_FAILURE_THRESHOLD : Z := 10.

(** What [handleFailure] is told: [`HTTP ${response.status}`] or
    [String(err)]. *)
Inductive FailureReason : Type :=
| HTTP (status : Z)
| Caught (err : JSError).

(** The messages of the manager, by template, with the values they
    interpolate. *)
Inductive LogMessage : Type :=
| Heartbeat_failed (failures threshold : Z) (reason : FailureReason)
| Heartbeat_failure_threshold_reached (threshold : Z)
| Kill_switch_activated (message : string)
| Kill_switch_deactivated
| Policy_refresh_requested.

Inductive LogLevel : Type := info | warn | error_.

(** What a heartbeat does besides writing its own fields and the shared
    enforcement state: statements [this.logger?.level(message)] and calls
    of the injected [onPolicyRefreshNeeded]. *)
Inductive Effect : Type :=
| Log (level : LogLevel) (message : LogMessage)
| RefreshCallback.

(** The private fields of the class.  The injected callback is opaque: a
    call of it returns or throws. *)
Record t : Type := {
  timer : bool;
  consecutiveFailures : Z;
  intervalMs : Z;
  failureThreshold : Z;
  controlPlaneUrl : string;
  orgId : string;
  userId : string;
  accessToken : string;
  onPolicyRefreshNeeded : option (unit -> result unit)
}.

Definition set_consecutiveFailures (n : Z) (this : t) : t :=
  {| timer := timer this; consecutiveFailures := n;
     intervalMs := intervalMs this; failureThreshold := failureThreshold this;
     controlPlaneUrl := controlPlaneUrl this; orgId := orgId this;
     userId := userId this; accessToken := accessToken this;
     onPolicyRefreshNeeded := onPolicyRefreshNeeded this |}.

Definition set_timer (b : bool) (this : t) : t :=
  {| timer := b; consecutiveFailures := consecutiveFailures this;
     intervalMs := intervalMs this; failureThreshold := failureThreshold this;
     controlPlaneUrl := controlPlaneUrl this; orgId := orgId this;
     userId := userId this; accessToken := accessToken this;
     onPolicyRefreshNeeded := onPolicyRefreshNeeded this |}.

(** The manager, the [ToolEnforcerState] object it shares with the
    enforcer hook, and the effects so far, oldest first. *)
Record World : Type := {
  mgr : t;
  enforcerState : ToolEnforcerState;
  effects : list Effect
}.

Definition emit (e : Effect) (w : World) : World :=
  {| mgr := mgr w; enforcerState := enforcerState w;
     effects := effects w ++ [e] |}.

Definition set_killSwitch (active : bool) (message : option string)
    (w : World) : World :=
  {| mgr := mgr w;
     enforcerState :=
       {| policy := policy (enforcerState w);
          killSwitchActive := active;
          killSwitchMessage_ := message |};
     effects := effects w |}.

(** [new KillSwitchManager({ config, session, enforcerState,
    onPolicyRefreshNeeded })] *)
Definition new (config : ClawGuardPluginConfig) (session : SessionTokens)
    (callback : option (unit -> result unit)) : t :=
  {| timer := false;
     consecutiveFailures := 0;
     intervalMs := default DEFAULT_INTERVAL_MS (cfg_heartbeatIntervalMs config);
     failureThreshold :=
       default DEFAULT_FAILURE_THRESHOLD (cfg_heartbeatFailureThreshold config);
     controlPlaneUrl := default EmptyString (cfg_controlPlaneUrl config);
     orgId := ses_orgId session;
     userId := ses_userId session;
     accessToken := ses_accessToken session;
     onPolicyRefreshNeeded := callback |}.

Definition start (this : t) : t := if timer this then this else set_timer true this.

Definition stop (this : t) : t := if timer this then set_timer false this else this.

(** How the awaited [fetch] of a heartbeat settles: it rejects, or it
    resolves to a response with a status whose [json()] rejects or yields
    the parsed body.  [None] is the body [null], on which a property read
    throws; any other body is read through the fields of
    [HeartbeatResponse]. *)
Inductive FetchOutcome : Type :=
| Rejected (err : JSError)
| Responded (status : Z) (json : result (option HeartbeatResponse)).

Definition ok (status : Z) : bool := (200 <=? status) && (status <=? 299).

Definition handleFailure (reason : FailureReason) (w : World) : World :=
  let this := set_consecutiveFailures (consecutiveFailures (mgr w) + 1) (mgr w) in
  let w := {| mgr := this; enforcerState := enforcerState w;
              effects := effects w |} in
  let w := emit (Log warn (Heartbeat_failed (consecutiveFailures this)
                             (failureThreshold this) reason)) w in
  if consecutiveFailures this >=? failureThreshold this then
    emit (Log error_ (Heartbeat_failure_threshold_reached
                        (failureThreshold this))) w
  else w.

(** [heartbeat()] from the point where its [fetch] settles. *)
Definition heartbeat_settled (outcome : FetchOutcome) (w : World) : World :=
  match outcome with
  | Rejected err => handleFailure (Caught err) w
  | Responded status json =>
      if negb (ok status) then handleFailure (HTTP status) w
      else
        match json with
        | Throw err => handleFailure (Caught err) w
        | Ok body =>
            let w := {| mgr := set_consecutiveFailures 0 (mgr w);
                        enforcerState := enforcerState w;
                        effects := effects w |} in
            match body with
            | None => (* data.killSwitch *) handleFailure (Caught TypeError) w
            | Some data =>
            (* Update kill switch state *)
            let w :=
              if killSwitch data then
                let w :=
                  if negb (killSwitchActive (enforcerState w)) then
                    emit (Log warn (Kill_switch_activated
                            (default "No message" (killSwitchMessage data)))) w
                  else w in
                set_killSwitch true (killSwitchMessage data) w
              else
                let w :=
                  if killSwitchActive (enforcerState w) then
                    emit (Log info Kill_switch_deactivated) w
                  else w in
                set_killSwitch false None w in
            (* Check if policy needs refresh *)
            if refreshPolicyNow data then
              let w := emit (Log info Policy_refresh_requested) w in
              match onPolicyRefreshNeeded (mgr w) with
              | None => w
              | Some callback =>
                  let w := emit RefreshCallback w in
                  match callback tt with
                  | Ok _ => w
                  | Throw err => handleFailure (Caught err) w
                  end
              end
            else w
            end
        end
  end.

(** [heartbeat()]: nothing is requested without a control plane; else the
    request is made and [network] is how it settles. *)
Definition heartbeat (network : FetchOutcome) (w : World) : World :=
  if String.eqb (controlPlaneUrl (mgr w)) EmptyString then w
  else heartbeat_settled network w.

End KillSwitchManager.

(* ===================================================================== *)
(** * Properties of the string primitives                                 *)
(* ===================================================================== *)

Module JSStringFacts.

Import JSString.

Ltac by_code_unit c :=
  destruct c as [[] [] [] [] [] [] [] []]; vm_compute; try reflexivity;
  try congruence.

Lemma lowerChar_isWhiteSpace (c : ascii) :
  isWhiteSpace (lowerChar c) = isWhiteSpace c.
Proof. by_code_unit c. Qed.

Lemma lowerChar_idem (c : ascii) : lowerChar (lowerChar c) = lowerChar c.
Proof. by_code_unit c. Qed.

Lemma toLowerCase_idem (s : string) : toLowerCase (toLowerCase s) = toLowerCase s.
Proof.
  induction s as [|c s IH]; simpl; [reflexivity|].
  now rewrite lowerChar_idem, IH.
Qed.

Lemma trimStart_toLowerCase (s : string) :
  trimStart (toLowerCase s) = toLowerCase (trimStart s).
Proof.
  induction s as [|c s IH]; simpl; [reflexivity|].
  rewrite lowerChar_isWhiteSpace.
  destruct (isWhiteSpace c); [exact IH | reflexivity].
Qed.

Lemma trimEnd_toLowerCase (s : string) :
  trimEnd (toLowerCase s) = toLowerCase (trimEnd s).
Proof.
  induction s as [|c s IH]; simpl; [reflexivity|].
  rewrite IH, lowerChar_isWhiteSpace.
  destruct (trimEnd s) as [|d r]; simpl.
  - destruct (isWhiteSpace c); reflexivity.
  - reflexivity.
Qed.

(** A string that does not begin with white space. *)
Definition startsClean (s : string) : Prop :=
  match s with
  | EmptyString => True
  | String c _ => isWhiteSpace c = false
  end.

Lemma trimStart_startsClean (s : string) : startsClean (trimStart s).
Proof.
  induction s as [|c s IH]; simpl; [exact I|].
  destruct (isWhiteSpace c) eqn:E; [exact IH | exact E].
Qed.

Lemma startsClean_trimStart (s : string) : startsClean s -> trimStart s = s.
Proof. destruct s as [|c s]; simpl; [reflexivity|]. now intros ->. Qed.

Lemma trimEnd_startsClean (s : string) : startsClean s -> startsClean (trimEnd s).
Proof.
  destruct s as [|c s]; simpl; [exact id|]. intros Hc.
  destruct (trimEnd s); [rewrite Hc|]; exact Hc.
Qed.

Lemma trimEnd_idem (s : string) : trimEnd (trimEnd s) = trimEnd s.
Proof.
  induction s as [|c s IH]; simpl; [reflexivity|].
  destruct (trimEnd s) as [|d r] eqn:E.
  - destruct (isWhiteSpace c) eqn:Hc; simpl; [reflexivity|]. now rewrite Hc.
  - change (trimEnd (String c (String d r))) with
      (match trimEnd (String d r) with
       | EmptyString => if isWhiteSpace c then EmptyString else String c EmptyString
       | r' => String c r'
       end).
    now rewrite IH.
Qed.

Lemma trim_idem (s : string) : trim (trim s) = trim s.
Proof.
  unfold trim.
  rewrite (startsClean_trimStart (trimEnd (trimStart s))).
  - apply trimEnd_idem.
  - apply trimEnd_startsClean, trimStart_startsClean.
Qed.

Lemma trim_toLowerCase (s : string) : trim (toLowerCase s) = toLowerCase (trim s).
Proof. unfold trim. now rewrite trimStart_toLowerCase, trimEnd_toLowerCase. Qed.

(** Lower-casing a trimmed string is stable under doing both again. *)
Lemma lower_trim_idem (s : string) :
  toLowerCase (trim (toLowerCase (trim s))) = toLowerCase (trim s).
Proof. now rewrite trim_toLowerCase, trim_idem, toLowerCase_idem. Qed.

(** A string whose first code unit exists and is not white space, and one
    whose last code unit exists and is not white space. *)
Definition beginsBlack (s : string) : bool :=
  match firstChar s with
  | Some c => negb (isWhiteSpace c)
  | None => false
  end.

Definition endsBlack (s : string) : bool :=
  match lastChar s with
  | Some c => negb (isWhiteSpace c)
  | None => false
  end.

Lemma beginsBlack_trimStart (s t : string) :
  beginsBlack s = true -> trimStart (s +:+ t) = s +:+ t.
Proof.
  destruct s as [|c s]; simpl; [discriminate|].
  unfold beginsBlack; simpl. now destruct (isWhiteSpace c).
Qed.

Lemma trimEnd_nonempty (s : string) :
  endsBlack s = true -> trimEnd s = s.
Proof.
  induction s as [|c s IH]; [discriminate|].
  unfold endsBlack. simpl. destruct s as [|d s'].
  - simpl. now destruct (isWhiteSpace c).
  - intros H. change (endsBlack (String d s') = true) in H.
    rewrite (IH H). reflexivity.
Qed.

Lemma trimEnd_LF (s : string) : trimEnd (s +:+ LFs) = trimEnd s.
Proof.
  induction s as [|c s IH]; [reflexivity|].
  simpl. change (s +:+ LFs) with (String.append s LFs) in IH.
  now rewrite IH.
Qed.

Lemma lastChar_app (s t : string) :
  t <> EmptyString -> lastChar (s +:+ t) = lastChar t.
Proof.
  intros Ht. induction s as [|c s IH]; [reflexivity|].
  change (String c s +:+ t) with (String c (s +:+ t)).
  assert (N : s +:+ t <> EmptyString).
  { destruct s; [exact Ht | discriminate]. }
  rewrite <- IH. destruct (s +:+ t); [congruence | reflexivity].
Qed.

Lemma endsBlack_nonempty (s : string) : endsBlack s = true -> s <> EmptyString.
Proof. now destruct s. Qed.

Lemma beginsBlack_nonempty (s : string) : beginsBlack s = true -> s <> EmptyString.
Proof. now destruct s. Qed.

Lemma endsBlack_app (s t : string) :
  endsBlack t = true -> endsBlack (s +:+ t) = true.
Proof.
  intros H. unfold endsBlack.
  rewrite lastChar_app by now apply endsBlack_nonempty. exact H.
Qed.

(** ** [split] after [join] *)

Lemma split_no_sep (sep : ascii) (s : string) :
  occurs sep s = false -> split sep s = [s].
Proof.
  induction s as [|c s IH]; [reflexivity|].
  simpl. destruct (Ascii.eqb c sep); [discriminate|]. simpl.
  intros H. now rewrite (IH H).
Qed.

Lemma split_app_sep (sep : ascii) (s r : string) :
  occurs sep s = false ->
  split sep (s +:+ String sep r) = s :: split sep r.
Proof.
  induction s as [|c s IH]; simpl.
  - now rewrite Ascii.eqb_refl.
  - destruct (Ascii.eqb c sep); [discriminate|]. simpl.
    intros H. change (s +:+ String sep r) with (String.append s (String sep r)) in IH.
    now rewrite (IH H).
Qed.

Lemma split_join (sep : ascii) (x : string) (xs : list string) :
  Forall (fun l => occurs sep l = false) (x :: xs) ->
  split sep (join (String sep EmptyString) (x :: xs)) = x :: xs.
Proof.
  revert x. induction xs as [|y ys IH]; intros x H.
  - simpl. apply split_no_sep. now inversion H.
  - inversion H as [|? ? Hx Hrest]; subst.
    change (join (String sep EmptyString) (x :: y :: ys))
      with (x +:+ String sep (join (String sep EmptyString) (y :: ys))).
    rewrite split_app_sep by assumption.
    now rewrite (IH y Hrest).
Qed.

Lemma join_beginsBlack (sep x : string) (xs : list string) :
  beginsBlack x = true -> beginsBlack (join sep (x :: xs)) = true.
Proof.
  destruct x as [|c x]; [discriminate|].
  destruct xs; simpl; exact id.
Qed.

Lemma join_endsBlack (sep : string) (xs : list string) (z : string) :
  last xs = Some z -> endsBlack z = true -> endsBlack (join sep xs) = true.
Proof.
  induction xs as [|x xs IH]; [discriminate|].
  destruct xs as [|y ys].
  - simpl. intros [= ->]. exact id.
  - intros Hl Hz.
    change (join sep (x :: y :: ys)) with (x +:+ (sep +:+ join sep (y :: ys))).
    apply endsBlack_app, endsBlack_app, IH; assumption.
Qed.

(** The white space [trim] removes from a file of lines is the final line
    feed, when the first line begins and the last line ends with a code
    unit that is not white space. *)
Lemma trim_lines (x : string) (xs : list string) (z : string) :
  beginsBlack x = true ->
  last (x :: xs) = Some z ->
  endsBlack z = true ->
  trim (join LFs (x :: xs) +:+ LFs) = join LFs (x :: xs).
Proof.
  intros Hx Hl Hz. unfold trim.
  rewrite beginsBlack_trimStart by now apply join_beginsBlack.
  rewrite trimEnd_LF. apply trimEnd_nonempty.
  eapply join_endsBlack; eassumption.
Qed.

End JSStringFacts.

(* ===================================================================== *)
(** * The tool enforcer                                                   *)
(* ===================================================================== *)

Module ToolEnforcerFacts.

Import JSString JSStringFacts ToolEnforcer.

Lemma alias_lookup (y : string) :
  TOOL_NAME_ALIASES !! y =
    if decide (y = "bash") then Some "exec"
    else if decide (y = "apply-patch") then Some "apply_patch"
    else None.
Proof.
  unfold TOOL_NAME_ALIASES; simpl.
  rewrite lookup_insert. destruct (decide ("bash" = y)) as [<-|Hb].
  - reflexivity.
  - rewrite decide_False by congruence.
    rewrite lookup_insert. destruct (decide ("apply-patch" = y)) as [<-|Ha].
    + reflexivity.
    + rewrite decide_False by congruence. apply lookup_empty.
Qed.

(** Of the keys of [Object.prototype] only [constructor] and [__proto__]
    are their own lower-case form. *)
Lemma prototype_lookup_lower (y : string) (m : PlainObject.Member) :
  toLowerCase y = y ->
  PlainObject.Object_prototype !! y = Some m ->
  (y = "constructor" /\ m = PlainObject.Object_constructor)
  \/ (y = "__proto__" /\ m = PlainObject.Object_proto).
Proof.
  intros L H. unfold PlainObject.Object_prototype in H.
  apply elem_of_list_to_map_2 in H.
  repeat (apply elem_of_cons in H as [[= -> ->]|H];
          [first [ now left | now right | vm_compute in L; discriminate L ]|]).
  inversion H.
Qed.

Lemma normalizeToolName_cases (name : string) :
  let y := toLowerCase (trim name) in
  (y = "bash" /\ normalizeToolName name = Name "exec")
  \/ (y = "apply-patch" /\ normalizeToolName name = Name "apply_patch")
  \/ (y = "constructor"
      /\ normalizeToolName name = Inherited PlainObject.Object_constructor)
  \/ (y = "__proto__"
      /\ normalizeToolName name = Inherited PlainObject.Object_proto)
  \/ (y <> "bash" /\ y <> "apply-patch"
      /\ PlainObject.Object_prototype !! y = None
      /\ normalizeToolName name = Name y).
Proof.
  intros y. unfold normalizeToolName, PlainObject.get. fold y.
  rewrite alias_lookup.
  destruct (decide (y = "bash")) as [Hb|Hb]; [now left|].
  destruct (decide (y = "apply-patch")) as [Ha|Ha]; [now right; left|].
  destruct (PlainObject.Object_prototype !! y) as [m|] eqn:P.
  - apply prototype_lookup_lower in P as [[-> ->]|[-> ->]].
    + now right; right; left.
    + now right; right; right; left.
    + apply toLowerCase_idem.
  - now right; right; right; right.
Qed.

(** Where [normalizeToolName] yields a string, that string is the
    lower-cased, trimmed name mapped through the alias table, and
    normalizing it again gives it back. *)
Lemma normalizeToolName_Name (name s : string) :
  normalizeToolName name = Name s ->
  s = default (toLowerCase (trim name))
              (TOOL_NAME_ALIASES !! toLowerCase (trim name))
  /\ normalizeToolName s = Name s.
Proof.
  intros E.
  destruct (normalizeToolName_cases name)
    as [[Y E']|[[Y E']|[[Y E']|[[Y E']|(Hb & Ha & P & E')]]]];
    rewrite E' in E; try discriminate E; injection E as <-.
  - rewrite Y. split; vm_compute; reflexivity.
  - rewrite Y. split; vm_compute; reflexivity.
  - split.
    + rewrite alias_lookup. now rewrite !decide_False by assumption.
    + unfold normalizeToolName, PlainObject.get.
      rewrite lower_trim_idem, alias_lookup.
      rewrite !decide_False by assumption. now rewrite P.
Qed.

(** What [normalizeToolName] yields is never a key under which the group
    table inherits a property: the loop over a group in [expandGroups]
    always has an array to run over. *)
Lemma group_lookup_not_inherited (name : string) :
  PlainObject.get TOOL_GROUPS (keyString (normalizeToolName name)) =
    match TOOL_GROUPS !! keyString (normalizeToolName name) with
    | Some group => PlainObject.Own group
    | None => PlainObject.Undefined
    end.
Proof.
  unfold PlainObject.get.
  destruct (TOOL_GROUPS !! keyString (normalizeToolName name)) as [g|] eqn:G;
    [reflexivity|].
  destruct (normalizeToolName_cases name)
    as [[Y E]|[[Y E]|[[Y E]|[[Y E]|(Hb & Ha & P & E)]]]];
    rewrite E; try (vm_compute; reflexivity).
  cbn [keyString]. now rewrite P.
Qed.

(** Whether a run of the hook blocks the call: a result with [block] set;
    [undefined] lets the call through. *)
Definition blocks (r : Hook (option BeforeToolCallResult)) : bool :=
  match fst r with
  | Some res => block res
  | None => false
  end.

(** The arguments of the [enqueue] calls of a run. *)
Definition audited (r : Hook (option BeforeToolCallResult))
  : list AuditLoggerEnqueueParams := snd r.

Lemma expandGroups_nil : expandGroups [] = ∅.
Proof. reflexivity. Qed.

(** C1. With the kill switch active the hook blocks whatever the tool
    name and whatever the policy (none included): it returns a block
    decision carrying the kill-switch message, and calls [enqueue] exactly
    once, with outcome [blocked] and metadata [{ reason: "kill_switch" }].
    The result does not mention the policy: the check precedes the deny
    and allow logic. *)
Theorem kill_switch_blocks_every_tool
    (state : ToolEnforcerState) (event : BeforeToolCallEvent) (ctx : ToolContext) :
  killSwitchActive state = true ->
  createToolEnforcerHook state event ctx =
    (Some {| block := true;
             blockReason := default DEFAULT_KILL_MESSAGE (killSwitchMessage_ state) |},
     [ {| p_eventType := tool_call_attempt;
          p_toolName := Some (normalizeToolName (toolName event));
          p_outcome := blocked;
          p_agentId := agentId ctx;
          p_sessionKey := sessionKey ctx;
          p_metadata := Some [("reason", JStr "kill_switch")] |} ]).
Proof.
  intros Hks. unfold createToolEnforcerHook. rewrite Hks. reflexivity.
Qed.

(** C2. With the kill switch inactive, a tool whose normalized name is in
    the expansion of the deny list and in the expansion of the allow list
    is blocked, and the one audited call carries outcome [blocked] and
    metadata [{ reason: "deny_list" }]: deny is checked before allow. *)
Theorem deny_checked_before_allow
    (state : ToolEnforcerState) (p : OrgPolicy) (denyList allowList : list string)
    (event : BeforeToolCallEvent) (ctx : ToolContext) :
  killSwitchActive state = false ->
  policy state = Some p ->
  deny (tools p) = Some denyList ->
  allow (tools p) = Some allowList ->
  normalizeToolName (toolName event) ∈ expandGroups denyList ->
  normalizeToolName (toolName event) ∈ expandGroups allowList ->
  createToolEnforcerHook state event ctx =
    (Some {| block := true;
             blockReason :=
               "ClawGuard: Tool " +:+ DQUOTE +:+ toolName event +:+
               DQUOTE +:+ " is blocked by organization policy" |},
     [ {| p_eventType := tool_call_attempt;
          p_toolName := Some (normalizeToolName (toolName event));
          p_outcome := blocked;
          p_agentId := agentId ctx;
          p_sessionKey := sessionKey ctx;
          p_metadata := Some [("reason", JStr "deny_list")] |} ]).
Proof.
  intros Hks Hp Hd _ Hin _.
  unfold createToolEnforcerHook. rewrite Hks, Hp, Hd.
  destruct denyList as [|d l].
  - rewrite expandGroups_nil in Hin. set_solver.
  - simpl nonEmptyList. cbv iota beta.
    unfold set_has. rewrite bool_decide_eq_true_2 by exact Hin.
    reflexivity.
Qed.

Definition sample_policy : OrgPolicy :=
  {| version := 1;
     tools := {| allow := Some ["read"; "exec"]; deny := Some ["exec"];
                 profile := None |};
     skills_approved := [];
     skills_requireApproval := false;
     killSwitch_active := false;
     killSwitch_message := None;
     policy_auditLevel := metadata |}.

Definition sample_ctx : ToolContext :=
  {| agentId := Some "test-agent"; sessionKey := Some "test-session" |}.

Lemma kill_switch_blocks_every_tool_witness :
  createToolEnforcerHook
    {| policy := Some sample_policy; killSwitchActive := true;
       killSwitchMessage_ := Some "Emergency shutdown" |}
    {| toolName := "read" |} sample_ctx =
  (Some {| block := true; blockReason := "Emergency shutdown" |},
   [ {| p_eventType := tool_call_attempt;
        p_toolName := Some (Name "read");
        p_outcome := blocked;
        p_agentId := Some "test-agent";
        p_sessionKey := Some "test-session";
        p_metadata := Some [("reason", JStr "kill_switch")] |} ]).
Proof.
  exact (kill_switch_blocks_every_tool
           {| policy := Some sample_policy; killSwitchActive := true;
              killSwitchMessage_ := Some "Emergency shutdown" |}
           {| toolName := "read" |} sample_ctx eq_refl).
Defined.

Lemma deny_checked_before_allow_witness :
  blocks (createToolEnforcerHook
            {| policy := Some sample_policy; killSwitchActive := false;
               killSwitchMessage_ := None |}
            {| toolName := "bash" |} sample_ctx) = true.
Proof.
  rewrite (deny_checked_before_allow
             {| policy := Some sample_policy; killSwitchActive := false;
                killSwitchMessage_ := None |}
             sample_policy ["exec"] ["read"; "exec"]
             {| toolName := "bash" |} sample_ctx
             eq_refl eq_refl eq_refl eq_refl).
  - reflexivity.
  - apply (bool_decide_unpack _). vm_compute. exact I.
  - apply (bool_decide_unpack _). vm_compute. exact I.
Defined.



End ToolEnforcerFacts.

(* ===================================================================== *)
(** * The policy cache                                                    *)
(* ===================================================================== *)

Module OrgPolicyCacheFacts.

Import FS OrgPolicyCache.

Section CacheFacts.
Context {codec : JSON CachedPolicy}.

Lemma load_missing (disk : Disk) (now : Z) (ttl : option Z) :
  disk !! CACHE_FILE = None ->
  loadCachedPolicy disk now ttl = Ok None
  /\ loadCachedPolicyFallback disk = Ok None.
Proof.
  intros H. unfold loadCachedPolicy, loadCachedPolicyFallback, readFileSync.
  rewrite H. split; reflexivity.
Qed.

Lemma load_corrupt (disk : Disk) (raw : string) (e : JSError) (now : Z)
    (ttl : option Z) :
  disk !! CACHE_FILE = Some raw ->
  JSON_parse raw = Throw e ->
  loadCachedPolicy disk now ttl = Ok None
  /\ loadCachedPolicyFallback disk = Ok None.
Proof.
  intros H P. unfold loadCachedPolicy, loadCachedPolicyFallback, readFileSync.
  rewrite H. simpl. rewrite P. split; reflexivity.
Qed.

Lemma save_writes (disk : Disk) (savedAt : Z) (policy : OrgPolicy) (T : Z) :
  saveCachedPolicy disk savedAt policy (Some T) =
    Ok (<[CACHE_FILE :=
           JSON_stringify {| cached_policy := policy; fetchedAt := savedAt;
                             ttlMs := Some T |}]> disk).
Proof. reflexivity. Qed.

(** C4. After [saveCachedPolicy(policy, T)] at time [savedAt], a
    [loadCachedPolicy(T)] at time [now] returns the saved policy exactly
    when [now - savedAt <= T] and returns [null] once more than [T] has
    elapsed; [loadCachedPolicyFallback()] returns the saved policy
    whatever the time.  On a disk without the cache file, or with one
    that [JSON.parse] rejects, both loads return [null] and do not throw.
    The saved document is required to survive [JSON.parse] after
    [JSON.stringify]. *)
Theorem cache_save_then_load
    (disk : Disk) (policy : OrgPolicy) (T savedAt now : Z) :
  JSON_parse (JSON_stringify {| cached_policy := policy; fetchedAt := savedAt;
                                ttlMs := Some T |})
    = Ok {| cached_policy := policy; fetchedAt := savedAt; ttlMs := Some T |} ->
  exists disk',
    saveCachedPolicy disk savedAt policy (Some T) = Ok disk'
    /\ (loadCachedPolicy disk' now (Some T) = Ok (Some policy)
        <-> now - savedAt <= T)
    /\ (now - savedAt > T -> loadCachedPolicy disk' now (Some T) = Ok None)
    /\ loadCachedPolicyFallback disk' = Ok (Some policy)
    /\ (forall (d : Disk) (t : Z) (ttl : option Z),
          d !! CACHE_FILE = None ->
          loadCachedPolicy d t ttl = Ok None
          /\ loadCachedPolicyFallback d = Ok None)
    /\ (forall (d : Disk) (raw : string) (e : JSError) (t : Z) (ttl : option Z),
          d !! CACHE_FILE = Some raw ->
          JSON_parse raw = Throw e ->
          loadCachedPolicy d t ttl = Ok None
          /\ loadCachedPolicyFallback d = Ok None).
Proof.
  intros RT. eexists. split; [apply save_writes|].
  assert (L : loadCachedPolicy
                (<[CACHE_FILE :=
                    JSON_stringify {| cached_policy := policy;
                                      fetchedAt := savedAt; ttlMs := Some T |}]> disk)
                now (Some T)
              = if now - savedAt >? T then Ok None else Ok (Some policy)).
  { unfold loadCachedPolicy, readFileSync. rewrite lookup_insert_eq.
    simpl. rewrite RT. simpl. destruct (now - savedAt >? T); reflexivity. }
  repeat split.
  - rewrite L. destruct (Z.gtb_spec (now - savedAt) T); [discriminate | lia].
  - intros H. rewrite L. destruct (Z.gtb_spec (now - savedAt) T);
      [lia | reflexivity].
  - intros H. rewrite L. destruct (Z.gtb_spec (now - savedAt) T);
      [reflexivity | lia].
  - unfold loadCachedPolicyFallback, readFileSync. rewrite lookup_insert_eq.
    simpl. rewrite RT. reflexivity.
  - eapply load_missing; eassumption.
  - eapply load_missing; eassumption.
  - eapply load_corrupt; eassumption.
  - eapply load_corrupt; eassumption.
Qed.

End CacheFacts.

(** A codec that knows one document, the cache record of [sample_policy]
    fetched at time 1000 with a TTL of one minute. *)
Definition sample_cached : CachedPolicy :=
  {| cached_policy := ToolEnforcerFacts.sample_policy;
     fetchedAt := 1000;
     ttlMs := Some 60000 |}.

Definition sample_cache_codec : JSON CachedPolicy :=
  {| JSON_stringify := fun _ => "{policy:{version:1},fetchedAt:1000,ttlMs:60000}";
     JSON_parse := fun raw =>
       if String.eqb raw "{policy:{version:1},fetchedAt:1000,ttlMs:60000}"
       then Ok sample_cached else Throw SyntaxError |}.

Lemma cache_save_then_load_witness :
  exists disk',
    saveCachedPolicy (codec := sample_cache_codec) ∅ 1000
      ToolEnforcerFacts.sample_policy (Some 60000) = Ok disk'
    /\ loadCachedPolicy (codec := sample_cache_codec) disk' 61000 (Some 60000)
       = Ok (Some ToolEnforcerFacts.sample_policy)
    /\ loadCachedPolicy (codec := sample_cache_codec) disk' 61001 (Some 60000)
       = Ok None
    /\ loadCachedPolicyFallback (codec := sample_cache_codec) disk'
       = Ok (Some ToolEnforcerFacts.sample_policy).
Proof.
  destruct (cache_save_then_load (codec := sample_cache_codec) ∅
              ToolEnforcerFacts.sample_policy 60000 1000 61000 eq_refl)
    as (disk' & Hs & Hl & _ & Hf & _).
  exists disk'. split; [exact Hs|]. split; [apply Hl; lia|].
  split; [|exact Hf].
  destruct (cache_save_then_load (codec := sample_cache_codec) ∅
              ToolEnforcerFacts.sample_policy 60000 1000 61001 eq_refl)
    as (disk2 & Hs2 & _ & He & _).
  assert (disk2 = disk') as -> by congruence.
  apply He. lia.
Defined.

End OrgPolicyCacheFacts.

(* ===================================================================== *)
(** * The audit logger                                                    *)
(* ===================================================================== *)

Module AuditLoggerFacts.

Import FS JSString JSStringFacts AuditLogger.

(** A line that can sit in the snapshot file as a record of its own: no
    line feed inside, and a first and a last code unit that are not white
    space. *)
Definition lineShaped (s : string) : bool :=
  negb (occurs LF s) && beginsBlack s && endsBlack s.

Section LoggerFacts.
Context {codec : JSON AuditEvent}.

(** What a line of the snapshot file contributes on reload. *)
Definition parsed (line : string) : option AuditEvent :=
  match JSON_parse line with
  | Ok e => Some e
  | Throw _ => None
  end.

(** An event that survives being written as a line and read back. *)
Definition survives (e : AuditEvent) : Prop :=
  JSON_parse (JSON_stringify e) = Ok e
  /\ lineShaped (JSON_stringify e) = true.

(** The event [enqueue] stores for a call at time [now]. *)
Definition stored (this : t) (now : Z) (params : AuditLoggerEnqueueParams)
  : AuditEvent :=
  {| ev_userId := userId this;
     ev_orgId := orgId this;
     ev_agentId := p_agentId params;
     ev_sessionKey := p_sessionKey params;
     ev_eventType := p_eventType params;
     ev_toolName := p_toolName params;
     ev_timestamp := now;
     ev_outcome := p_outcome params;
     ev_metadata := if AuditLevel_eqb (auditLevel this) full
                    then p_metadata params else None |}.

(** A run of [enqueue] calls, each with its clock reading. *)
Fixpoint enqueue_all (calls : list (Z * AuditLoggerEnqueueParams)) (w : World)
  : result World :=
  match calls with
  | [] => Ok w
  | (now, params) :: rest => do! w' <- enqueue now params w; enqueue_all rest w'
  end.

Lemma persistBuffer_writes (disk : Disk) (events : list AuditEvent) :
  persistBuffer disk events = Ok (<[BUFFER_FILE := snapshot events]> disk).
Proof. reflexivity. Qed.

Lemma clearPersistedBuffer_deletes (disk : Disk) :
  clearPersistedBuffer disk = Ok (delete BUFFER_FILE disk).
Proof.
  unfold clearPersistedBuffer, unlinkSync.
  destruct (disk !! BUFFER_FILE) eqn:E; simpl; [reflexivity|].
  now rewrite delete_id.
Qed.

Lemma set_buffer_same (this : t) : set_buffer (buffer this) this = this.
Proof. now destruct this. Qed.

Lemma reload_loop (lines : list string) (this : t) :
  for_of lines
    (fun this line =>
       try_catch
         (do! e <- JSON_parse line;
          Ok (set_buffer (buffer this ++ [e]) this))
         (fun _ => Ok this))
    this
  = Ok (set_buffer (buffer this ++ omap parsed lines) this).
Proof.
  revert this. induction lines as [|l ls IH]; intros this; simpl.
  - now rewrite app_nil_r, set_buffer_same.
  - unfold parsed at 1. destruct (JSON_parse l) as [e|err]; simpl.
    + rewrite IH. simpl. now rewrite <- app_assoc.
    + apply IH.
Qed.

Lemma filter_truthy_lines (lines : list string) :
  filter (fun l => truthy l = true) lines
  = filter (fun l => l <> EmptyString) lines.
Proof.
  apply list_filter_iff. intros [|c s]; simpl; split; congruence.
Qed.

(** Reloading a file of lines. *)
Lemma loadPersistedBuffer_lines (this : t) (disk : Disk) (lines : list string) :
  Forall (fun l => occurs LF l = false) lines ->
  match lines with [] => true | x :: _ => beginsBlack x end = true ->
  match last lines with None => true | Some z => endsBlack z end = true ->
  disk !! BUFFER_FILE = Some (join LFs lines +:+ LFs) ->
  loadPersistedBuffer this disk =
    Ok (set_buffer
          (buffer this ++ omap parsed (filter (fun l => l <> EmptyString) lines))
          this).
Proof.
  intros Hlf Hb He Hfile.
  unfold loadPersistedBuffer, readFileSync. rewrite Hfile. simpl rbind.
  destruct lines as [|x xs].
  - change (trim (join LFs [] +:+ LFs)) with EmptyString. simpl split.
    rewrite filter_truthy_lines.
    rewrite (reload_loop _ this). reflexivity.
  - destruct (last (x :: xs)) as [z|] eqn:Hl.
    2:{ apply last_None in Hl. discriminate. }
    rewrite (trim_lines x xs z Hb Hl He).
    unfold LFs at 1. rewrite split_join by exact Hlf.
    rewrite filter_truthy_lines, (reload_loop _ this). reflexivity.
Qed.

(** Whatever the disk holds, the constructor returns a logger. *)
Lemma new_never_throws (config : ClawGuardPluginConfig) (session : SessionTokens)
    (level : option AuditLevel) (disk : Disk) :
  exists this, new config session level disk = Ok this.
Proof.
  unfold new, loadPersistedBuffer, readFileSync.
  destruct (disk !! BUFFER_FILE) as [raw|]; cbn [rbind try_catch].
  - rewrite reload_loop. eexists. reflexivity.
  - eexists. reflexivity.
Qed.

Lemma lineShaped_parts (s : string) :
  lineShaped s = true ->
  occurs LF s = false /\ beginsBlack s = true /\ endsBlack s = true.
Proof.
  unfold lineShaped. intros H.
  apply andb_prop in H as [H H3]. apply andb_prop in H as [H1 H2].
  apply negb_true_iff in H1. auto.
Qed.

Lemma omap_parsed_survivors (events : list AuditEvent) :
  Forall survives events ->
  omap parsed (map JSON_stringify events) = events.
Proof.
  induction 1 as [|e es [RT _] _ IH]; [reflexivity|].
  simpl. unfold parsed at 1. rewrite RT. simpl. f_equal. exact IH.
Qed.

Lemma filter_survivors (events : list AuditEvent) :
  Forall survives events ->
  filter (fun l => l <> EmptyString) (map JSON_stringify events)
  = map JSON_stringify events.
Proof.
  induction 1 as [|e es [_ Sh] _ IH]; [reflexivity|].
  simpl. rewrite filter_cons_True.
  - now rewrite IH.
  - apply beginsBlack_nonempty. now apply lineShaped_parts in Sh.
Qed.

(** What [persistBuffer] wrote is what a restart reads back. *)
Lemma reload_after_persist (this : t) (disk : Disk) (events : list AuditEvent) :
  Forall survives events ->
  loadPersistedBuffer this (<[BUFFER_FILE := snapshot events]> disk)
  = Ok (set_buffer (buffer this ++ events) this).
Proof.
  intros Hs.
  rewrite (loadPersistedBuffer_lines this _ (map JSON_stringify events)).
  - now rewrite filter_survivors, omap_parsed_survivors.
  - apply Forall_map. eapply Forall_impl; [exact Hs|].
    intros e [_ Sh]. now apply lineShaped_parts in Sh.
  - destruct Hs as [|e es [_ Sh] _]; [reflexivity|].
    simpl. now apply lineShaped_parts in Sh.
  - destruct (last (map JSON_stringify events)) as [z|] eqn:Hl; [|reflexivity].
    rewrite last_Some in Hl. destruct Hl as [l' Hl'].
    assert (Hz : z ∈ map JSON_stringify events).
    { rewrite Hl'. set_solver. }
    apply list_elem_of_fmap in Hz as (e & -> & He).
    rewrite Forall_forall in Hs. destruct (Hs e He) as [_ Sh].
    now apply lineShaped_parts in Sh.
  - apply lookup_insert_eq.
Qed.

(** ** [flush] *)

(** The POST a flush of [this] issues. *)
Definition request_of (this : t) : Request :=
  {| req_controlPlaneUrl := controlPlaneUrl this;
     req_orgId := orgId this;
     req_accessToken := accessToken this;
     req_events := buffer this |}.

Definition failed (outcome : FetchOutcome) : bool :=
  match outcome with
  | Rejected _ => true
  | Responded status => negb (ok status)
  end.

Lemma length_eqb_0 {A} (l : list A) :
  l <> [] -> (Z.of_nat (length l) =? 0) = false.
Proof. destruct l; [congruence|]. intros _. simpl. lia. Qed.

Lemma eqb_empty_false (s : string) :
  s <> EmptyString -> String.eqb s EmptyString = false.
Proof. intros H. now apply String.eqb_neq. Qed.

Lemma flush_nothing (w : World) : buffer (logger w) = [] -> flush w = Ok w.
Proof. intros H. unfold flush. now rewrite H. Qed.

Lemma flush_no_endpoint (w : World) :
  buffer (logger w) <> [] ->
  controlPlaneUrl (logger w) = EmptyString ->
  flush w = Ok {| logger := set_buffer [] (logger w);
                  disk := <[BUFFER_FILE := snapshot (buffer (logger w))]> (disk w);
                  inflight := inflight w |}.
Proof.
  intros Hb Hu. unfold flush. rewrite (length_eqb_0 _ Hb).
  cbn [controlPlaneUrl set_buffer]. rewrite Hu. reflexivity.
Qed.

Lemma flush_endpoint (w : World) :
  buffer (logger w) <> [] ->
  controlPlaneUrl (logger w) <> EmptyString ->
  flush w = Ok {| logger := set_buffer [] (logger w);
                  disk := disk w;
                  inflight := inflight w ++ [request_of (logger w)] |}.
Proof.
  intros Hb Hu. unfold flush. rewrite (length_eqb_0 _ Hb).
  cbn [controlPlaneUrl set_buffer]. rewrite (eqb_empty_false _ Hu).
  reflexivity.
Qed.

(** The next flush of a logger takes its whole buffer: without a control
    plane the buffer becomes the snapshot file, with one it becomes the
    body of the POST. *)
Definition next_flush_takes_all (this : t) (disk : Disk) : Prop :=
  forall pending : list Request,
    buffer this <> [] ->
    exists w',
      flush {| logger := this; disk := disk; inflight := pending |} = Ok w'
      /\ buffer (logger w') = []
      /\ (controlPlaneUrl this = EmptyString ->
          AuditLogger.disk w' !! BUFFER_FILE = Some (snapshot (buffer this)))
      /\ (controlPlaneUrl this <> EmptyString ->
          exists request : Request,
            inflight w' = (pending ++ [request])%list
            /\ req_events request = buffer this).

Lemma flush_takes_all (this : t) (disk : Disk) : next_flush_takes_all this disk.
Proof.
  intros pending Hb.
  destruct (decide (controlPlaneUrl this = EmptyString)) as [Hu|Hu].
  - eexists. split; [apply flush_no_endpoint; assumption|].
    split; [reflexivity|]. split; [|congruence].
    intros _. apply lookup_insert_eq.
  - eexists. split; [apply flush_endpoint; assumption|].
    split; [reflexivity|]. split; [congruence|].
    intros _. eexists. split; reflexivity.
Qed.

(** C7. Constructing a logger over a snapshot file of lines puts in the
    buffer, in file order, the event of each line that [JSON.parse]
    accepts; lines it rejects are skipped one by one and the construction
    does not fail.  The file is taken as lines ended by line feeds, the
    first one beginning and the last one ending with a code unit that is
    not white space.  In particular the events [persistBuffer] wrote
    before a restart are the buffer after it, and the next flush takes
    the whole buffer. *)
Theorem restart_reloads_persisted_events
    (config : ClawGuardPluginConfig) (session : SessionTokens)
    (level : option AuditLevel) (disk : Disk) (lines : list string) :
  Forall (fun l => occurs LF l = false) lines ->
  match lines with [] => true | x :: _ => beginsBlack x end = true ->
  match last lines with None => true | Some z => endsBlack z end = true ->
  disk !! BUFFER_FILE = Some (join LFs lines +:+ LFs) ->
  exists this,
    new config session level disk = Ok this
    /\ buffer this = omap parsed (filter (fun l => l <> EmptyString) lines)
    /\ next_flush_takes_all this disk
    /\ (forall (events : list AuditEvent) (disk0 : Disk),
          Forall survives events ->
          exists disk1 this1,
            persistBuffer disk0 events = Ok disk1
            /\ new config session level disk1 = Ok this1
            /\ buffer this1 = events
            /\ next_flush_takes_all this1 disk1).
Proof.
  intros Hlf Hb He Hfile. unfold new.
  eexists. split; [apply loadPersistedBuffer_lines; eassumption|].
  split; [reflexivity|]. split; [apply flush_takes_all|].
  intros events disk0 Hs. eexists. eexists.
  split; [apply persistBuffer_writes|].
  split; [apply reload_after_persist; exact Hs|].
  split; [reflexivity | apply flush_takes_all].
Qed.

(** C6. A flush with a control plane detaches the buffer as the batch of
    its POST.  When the POST settles as a failure (a response that is not
    2xx, or a rejection), the batch goes back in front of whatever the
    buffer holds by then, in its order, and that whole buffer is written
    to the snapshot file; when it settles as a success, the snapshot file
    is removed and the buffer is left as it is. *)
Theorem flush_failure_requeues_and_success_clears
    (w0 w : World) (i : nat) (outcome : FetchOutcome) :
  buffer (logger w0) <> [] ->
  controlPlaneUrl (logger w0) <> EmptyString ->
  inflight w !! i = Some (request_of (logger w0)) ->
  flush w0 = Ok {| logger := set_buffer [] (logger w0);
                   disk := AuditLogger.disk w0;
                   inflight := inflight w0 ++ [request_of (logger w0)] |}
  /\ settle i outcome w =
       Ok (if failed outcome then
             {| logger := set_buffer (buffer (logger w0) ++ buffer (logger w))
                                     (logger w);
                disk := <[BUFFER_FILE :=
                           snapshot (buffer (logger w0) ++ buffer (logger w))]>
                          (AuditLogger.disk w);
                inflight := delete i (inflight w) |}
           else
             {| logger := logger w;
                disk := delete BUFFER_FILE (AuditLogger.disk w);
                inflight := delete i (inflight w) |}).
Proof.
  intros Hb Hu Hi. split; [apply flush_endpoint; assumption|].
  unfold settle. rewrite Hi. unfold flush_settled.
  cbn [req_events request_of].
  destruct outcome as [err|status]; cbn [failed].
  - rewrite persistBuffer_writes. reflexivity.
  - destruct (ok status); cbn [negb].
    + rewrite clearPersistedBuffer_deletes. reflexivity.
    + rewrite persistBuffer_writes. reflexivity.
Qed.

(** ** [enqueue] *)

(** The events a run of [enqueue] calls stores on a logger: none at level
    [off], else one per call. *)
Definition enqueued (this : t) (calls : list (Z * AuditLoggerEnqueueParams))
  : list AuditEvent :=
  if AuditLevel_eqb (auditLevel this) off then []
  else map (fun c => stored this (fst c) (snd c)) calls.

Lemma enqueue_below_batch (w : World) (now : Z) (params : AuditLoggerEnqueueParams) :
  auditLevel (logger w) <> off ->
  Z.of_nat (length (buffer (logger w))) + 1 < batchSize (logger w) ->
  enqueue now params w =
    Ok {| logger := set_buffer (buffer (logger w) ++ [stored (logger w) now params])
                               (logger w);
          disk := disk w;
          inflight := inflight w |}.
Proof.
  intros Hl Hb. unfold enqueue.
  destruct (AuditLevel_eqb (auditLevel (logger w)) off) eqn:E.
  { destruct (auditLevel (logger w)); try discriminate; congruence. }
  cbn [buffer set_buffer batchSize logger].
  rewrite length_app, Nat2Z.inj_add. cbn [length].
  destruct (Z.geb_spec (Z.of_nat (length (buffer (logger w))) + Z.of_nat 1)
              (batchSize (logger w))); [lia | reflexivity].
Qed.

Lemma enqueue_no_endpoint (w : World) (now : Z) (params : AuditLoggerEnqueueParams) :
  controlPlaneUrl (logger w) = EmptyString ->
  exists (b : list AuditEvent) (d : Disk),
    enqueue now params w =
      Ok {| logger := set_buffer b (logger w); disk := d; inflight := inflight w |}
    /\ b `suffix_of` (buffer (logger w) ++ enqueued (logger w) [(now, params)]).
Proof.
  intros Hu. unfold enqueue, enqueued.
  destruct (AuditLevel_eqb (auditLevel (logger w)) off) eqn:E.
  - exists (buffer (logger w)), (disk w). rewrite set_buffer_same, app_nil_r.
    split; [now destruct w | reflexivity].
  - cbn [buffer set_buffer batchSize logger map fst snd].
    fold (stored (logger w) now params).
    destruct (_ >=? _).
    + eexists. eexists. split.
      * rewrite flush_no_endpoint; [reflexivity | | exact Hu].
        cbn [logger buffer set_buffer]. now destruct (buffer (logger w)).
      * apply suffix_nil.
    + eexists. eexists. split; reflexivity.
Qed.

Lemma enqueue_all_no_endpoint (calls : list (Z * AuditLoggerEnqueueParams)) :
  forall w : World,
    controlPlaneUrl (logger w) = EmptyString ->
    exists (b : list AuditEvent) (d : Disk),
      enqueue_all calls w =
        Ok {| logger := set_buffer b (logger w); disk := d; inflight := inflight w |}
      /\ b `suffix_of` (buffer (logger w) ++ enqueued (logger w) calls).
Proof.
  induction calls as [|[now params] rest IH]; intros w Hu.
  - exists (buffer (logger w)), (disk w). rewrite set_buffer_same. split.
    + now destruct w.
    + unfold enqueued. destruct (AuditLevel_eqb _ _); now rewrite app_nil_r.
  - destruct (enqueue_no_endpoint w now params Hu) as (b1 & d1 & E1 & S1).
    cbn [enqueue_all]. rewrite E1. cbn [rbind].
    destruct (IH {| logger := set_buffer b1 (logger w); disk := d1;
                    inflight := inflight w |} Hu) as (b & d & E & S).
    exists b, d. split; [exact E|].
    cbn [logger buffer set_buffer] in S.
    etransitivity; [exact S|].
    unfold enqueued in *. cbn [auditLevel set_buffer] in *.
    destruct (AuditLevel_eqb (auditLevel (logger w)) off).
    + rewrite !app_nil_r in *. exact S1.
    + cbn [map fst snd] in *.
      change (stored (set_buffer b1 (logger w))) with (stored (logger w)).
      rewrite (cons_middle _ (buffer (logger w))), app_assoc.
      apply suffix_app. exact S1.
Qed.



(** C10. Without a control plane, a flush of a non-empty buffer empties
    the buffer and makes the snapshot file hold exactly the detached
    batch.  After a second such flush, with any [enqueue] calls between
    the two, the buffer is empty and the snapshot file holds exactly the
    second batch, which consists of events stored by those calls: a
    restart then reloads the second batch only, and an event of the first
    batch that is not among the newly stored ones is in neither place. *)
Theorem flush_without_endpoint_overwrites_snapshot
    (w : World) (calls : list (Z * AuditLoggerEnqueueParams)) :
  controlPlaneUrl (logger w) = EmptyString ->
  buffer (logger w) <> [] ->
  exists w1 w2,
    flush w = Ok w1
    /\ buffer (logger w1) = []
    /\ disk w1 = <[BUFFER_FILE := snapshot (buffer (logger w))]> (disk w)
    /\ enqueue_all calls w1 = Ok w2
    /\ buffer (logger w2) `suffix_of` enqueued (logger w) calls
    /\ (buffer (logger w2) <> [] ->
        exists w3,
          flush w2 = Ok w3
          /\ buffer (logger w3) = []
          /\ disk w3 !! BUFFER_FILE = Some (snapshot (buffer (logger w2)))
          /\ (forall e, e ∈ buffer (logger w) ->
                        e ∉ enqueued (logger w) calls ->
                        (e ∉ buffer (logger w3)) /\ (e ∉ buffer (logger w2)))
          /\ (Forall survives (buffer (logger w2)) ->
              forall config session level,
              exists this,
                new config session level (disk w3) = Ok this
                /\ buffer this = buffer (logger w2))).
Proof.
  intros Hu Hb.
  destruct (enqueue_all_no_endpoint calls
              {| logger := set_buffer [] (logger w);
                 disk := <[BUFFER_FILE := snapshot (buffer (logger w))]> (disk w);
                 inflight := inflight w |} Hu) as (b & d & E & S).
  cbn [logger buffer set_buffer app] in S.
  change (enqueued (set_buffer [] (logger w)) calls)
    with (enqueued (logger w) calls) in S.
  eexists. eexists.
  split; [apply flush_no_endpoint; assumption|].
  split; [reflexivity|]. split; [reflexivity|].
  split; [exact E|].
  split; [exact S|].
  cbn [logger buffer set_buffer]. intros Hb2.
  eexists. split; [apply flush_no_endpoint; [exact Hb2 | exact Hu]|].
  cbn [logger buffer set_buffer disk].
  split; [reflexivity|]. split; [apply lookup_insert_eq|]. split.
  - intros e _ Hne. split; [apply not_elem_of_nil|].
    intros Hin. apply Hne.
    destruct S as [k ->]. apply elem_of_app. now right.
    
  - intros Hs config session level. eexists. split.
    + unfold new. apply reload_after_persist. exact Hs.
    + reflexivity.
Qed.

End LoggerFacts.

(** ** Sample runs *)

Definition sample_event_1 : AuditEvent :=
  {| ev_userId := "user-1"; ev_orgId := "org-123";
     ev_agentId := Some "test-agent"; ev_sessionKey := Some "test-session";
     ev_eventType := tool_call_attempt; ev_toolName := Some (Name "read");
     ev_timestamp := 1000; ev_outcome := allowed; ev_metadata := None |}.

Definition sample_event_2 : AuditEvent :=
  {| ev_userId := "user-1"; ev_orgId := "org-123";
     ev_agentId := Some "test-agent"; ev_sessionKey := Some "test-session";
     ev_eventType := tool_call_attempt; ev_toolName := Some (Name "exec");
     ev_timestamp := 2000; ev_outcome := blocked; ev_metadata := None |}.

(** A codec that knows the two sample events, by their time stamps. *)
Definition sample_codec : JSON AuditEvent :=
  {| JSON_stringify := fun e =>
       if ev_timestamp e =? 1000 then "{t:1000}" else "{t:2000}";
     JSON_parse := fun line =>
       if String.eqb line "{t:1000}" then Ok sample_event_1
       else if String.eqb line "{t:2000}" then Ok sample_event_2
       else Throw SyntaxError |}.

Definition sample_config (url : option string) : ClawGuardPluginConfig :=
  {| cfg_controlPlaneUrl := url;
     cfg_orgId := Some "org-123";
     cfg_policyCacheTtlMs := None;
     cfg_heartbeatIntervalMs := Some 100;
     cfg_heartbeatFailureThreshold := Some 3;
     cfg_auditBatchSize := Some 5;
     cfg_auditFlushIntervalMs := Some 60000 |}.

Definition sample_session : SessionTokens :=
  {| ses_accessToken := "test-token"; ses_userId := "user-1";
     ses_orgId := "org-123" |}.

Definition sample_logger (url : string) (events : list AuditEvent) : t :=
  {| buffer := events; flushTimer := false; batchSize := 5;
     flushIntervalMs := 60000; controlPlaneUrl := url;
     orgId := "org-123"; userId := "user-1"; accessToken := "test-token";
     auditLevel := metadata |}.

Definition sample_url : string := "https://clawguard.example.com".

Definition sample_params : AuditLoggerEnqueueParams :=
  {| p_eventType := tool_call_attempt; p_toolName := Some (Name "exec");
     p_outcome := blocked; p_agentId := Some "test-agent";
     p_sessionKey := Some "test-session";
     p_metadata := Some [("reason", JStr "kill_switch")] |}.

(** The metadata of the events in the bodies of the POSTs a run left
    pending, request by request. *)
Definition transmitted_metadata (r : result World) : list (list (option Metadata)) :=
  match r with
  | Ok w => map (fun request => map ev_metadata (req_events request)) (inflight w)
  | Throw _ => []
  end.



Lemma restart_reloads_persisted_events_witness :
  exists this,
    new (codec := sample_codec) (sample_config (Some sample_url)) sample_session
      (Some metadata)
      {[ BUFFER_FILE := join LFs ["{t:1000}"; "not json"; "{t:2000}"] +:+ LFs ]}
    = Ok this
    /\ buffer this = [sample_event_1; sample_event_2].
Proof.
  destruct (restart_reloads_persisted_events (codec := sample_codec)
              (sample_config (Some sample_url)) sample_session (Some metadata)
              {[ BUFFER_FILE := join LFs ["{t:1000}"; "not json"; "{t:2000}"] +:+ LFs ]}
              ["{t:1000}"; "not json"; "{t:2000}"])
    as (this & E & B & _).
  - repeat constructor.
  - reflexivity.
  - reflexivity.
  - apply lookup_singleton_eq.
  - exists this. split; [exact E|]. rewrite B. vm_compute. reflexivity.
Defined.

Lemma flush_failure_requeues_and_success_clears_witness :
  exists w',
    settle (codec := sample_codec) 0 (Responded 500)
      {| logger := sample_logger sample_url [sample_event_2]; disk := ∅;
         inflight := [request_of (sample_logger sample_url [sample_event_1])] |}
    = Ok w'
    /\ buffer (logger w') = [sample_event_1; sample_event_2]
    /\ disk w' !! BUFFER_FILE
       = Some ("{t:1000}" +:+ LFs +:+ "{t:2000}" +:+ LFs).
Proof.
  destruct (flush_failure_requeues_and_success_clears (codec := sample_codec)
              {| logger := sample_logger sample_url [sample_event_1]; disk := ∅;
                 inflight := [] |}
              {| logger := sample_logger sample_url [sample_event_2]; disk := ∅;
                 inflight := [request_of (sample_logger sample_url [sample_event_1])] |}
              0%nat (Responded 500))
    as [_ S]; [discriminate | discriminate | reflexivity |].
  eexists. split; [exact S|]. split; [reflexivity|].
  cbn [failed ok negb disk]. apply lookup_insert_eq.
Defined.

Lemma flush_without_endpoint_overwrites_snapshot_witness :
  exists w1 w2 w3,
    flush (codec := sample_codec)
      {| logger := sample_logger EmptyString [sample_event_1]; disk := ∅;
         inflight := [] |} = Ok w1
    /\ disk w1 !! BUFFER_FILE = Some ("{t:1000}" +:+ LFs)
    /\ enqueue_all (codec := sample_codec) [(2000, sample_params)] w1 = Ok w2
    /\ flush (codec := sample_codec) w2 = Ok w3
    /\ buffer (logger w3) = []
    /\ disk w3 !! BUFFER_FILE = Some ("{t:2000}" +:+ LFs).
Proof.
  destruct (flush_without_endpoint_overwrites_snapshot (codec := sample_codec)
              {| logger := sample_logger EmptyString [sample_event_1]; disk := ∅;
                 inflight := [] |}
              [(2000, sample_params)] eq_refl)
    as (w1 & w2 & F1 & _ & D1 & E & _ & K); [discriminate|].
  assert (W2 : w2 = {| logger := sample_logger EmptyString [sample_event_2];
                       disk := {[ BUFFER_FILE := "{t:1000}" +:+ LFs ]};
                       inflight := [] |}).
  { assert (W1 : w1 = {| logger := sample_logger EmptyString [];
                         disk := {[ BUFFER_FILE := "{t:1000}" +:+ LFs ]};
                         inflight := [] |}).
    { vm_compute in F1. injection F1 as <-. vm_compute. reflexivity. }
    rewrite W1 in E. vm_compute in E. injection E as <-. vm_compute. reflexivity. }
  destruct K as (w3 & F2 & B3 & D3 & _); [rewrite W2; discriminate|].
  exists w1, w2, w3. rewrite D1.
  split; [exact F1|]. split; [apply lookup_insert_eq|].
  split; [exact E|]. split; [exact F2|]. split; [exact B3|].
  rewrite D3, W2. reflexivity.
Defined.

End AuditLoggerFacts.

(* ===================================================================== *)
(** * The kill-switch heartbeat                                           *)
(* ===================================================================== *)

Module KillSwitchFacts.

Import ToolEnforcer KillSwitchManager.

(** A heartbeat failure: the fetch rejected (transport error), or the
    response is not 2xx. *)
Definition failure (outcome : FetchOutcome) : bool :=
  match outcome with
  | Rejected _ => true
  | Responded status _ => negb (ok status)
  end.

(** Heartbeats one after the other, each from the point where its fetch
    settles. *)
Definition heartbeats (outcomes : list FetchOutcome) (w : World) : World :=
  foldl (fun w outcome => heartbeat_settled outcome w) w outcomes.

(** The number of calls of the refresh callback among some effects. *)
Fixpoint refresh_calls (es : list Effect) : nat :=
  match es with
  | [] => 0
  | RefreshCallback :: es' => S (refresh_calls es')
  | Log _ _ :: es' => refresh_calls es'
  end.

(** A callback whose call returns. *)
Definition returns (callback : option (unit -> result unit)) : Prop :=
  match callback with
  | Some f => match f tt with Ok _ => True | Throw _ => False end
  | None => True
  end.

Definition escalation (this : t) : Effect :=
  Log error_ (Heartbeat_failure_threshold_reached (failureThreshold this)).

Lemma handleFailure_spec (reason : FailureReason) (w : World) :
  enforcerState (handleFailure reason w) = enforcerState w
  /\ consecutiveFailures (mgr (handleFailure reason w))
     = consecutiveFailures (mgr w) + 1
  /\ failureThreshold (mgr (handleFailure reason w)) = failureThreshold (mgr w)
  /\ (failureThreshold (mgr w) <= consecutiveFailures (mgr w) + 1 ->
      last (effects (handleFailure reason w)) = Some (escalation (mgr w))).
Proof.
  unfold handleFailure.
  cbn [consecutiveFailures failureThreshold set_consecutiveFailures mgr emit].
  destruct (Z.geb_spec (consecutiveFailures (mgr w) + 1) (failureThreshold (mgr w)))
    as [Hge|Hlt].
  - repeat split. intros _. cbn [effects emit]. now rewrite last_snoc.
  - repeat split. lia.
Qed.

Lemma failure_is_handled (outcome : FetchOutcome) (w : World) :
  failure outcome = true ->
  exists reason, heartbeat_settled outcome w = handleFailure reason w.
Proof.
  destruct outcome as [err|status json]; cbn [failure heartbeat_settled].
  - intros _. now exists (Caught err).
  - intros ->. now exists (HTTP status).
Qed.

Lemma failures_frame (outcomes : list FetchOutcome) :
  forall w : World,
    Forall (fun o => failure o = true) outcomes ->
    enforcerState (heartbeats outcomes w) = enforcerState w
    /\ consecutiveFailures (mgr (heartbeats outcomes w))
       = consecutiveFailures (mgr w) + Z.of_nat (length outcomes)
    /\ failureThreshold (mgr (heartbeats outcomes w)) = failureThreshold (mgr w).
Proof.
  induction outcomes as [|o os IH]; intros w H.
  - cbn. repeat split. lia.
  - inversion H as [|? ? Ho Hos]; subst.
    destruct (failure_is_handled o w Ho) as [reason E].
    destruct (handleFailure_spec reason w) as (S1 & C1 & T1 & _).
    destruct (IH (heartbeat_settled o w) Hos) as (S2 & C2 & T2).
    unfold heartbeats in *. cbn [foldl]. rewrite S2, C2, T2, E, S1, C1, T1.
    repeat split. cbn [length]. lia.
Qed.

(** C9. A heartbeat failure (a response that is not 2xx, or a transport
    error) adds one to the consecutive-failure counter and leaves the
    shared enforcement state as it was.  So after any run of failures
    followed by one more, [killSwitchActive], [killSwitchMessage] and the
    policy are what they were before the run, the counter has grown by the
    number of failures, and when it has reached the threshold the last
    thing the failure did was to log the escalation. *)
Theorem failures_never_flip_kill_switch
    (outcomes : list FetchOutcome) (outcome : FetchOutcome) (w : World) :
  Forall (fun o => failure o = true) outcomes ->
  failure outcome = true ->
  enforcerState (heartbeat_settled outcome (heartbeats outcomes w))
    = enforcerState w
  /\ killSwitchActive
       (enforcerState (heartbeat_settled outcome (heartbeats outcomes w)))
     = killSwitchActive (enforcerState w)
  /\ killSwitchMessage_
       (enforcerState (heartbeat_settled outcome (heartbeats outcomes w)))
     = killSwitchMessage_ (enforcerState w)
  /\ consecutiveFailures (mgr (heartbeat_settled outcome (heartbeats outcomes w)))
     = consecutiveFailures (mgr w) + Z.of_nat (length outcomes) + 1
  /\ (failureThreshold (mgr w)
        <= consecutiveFailures (mgr w) + Z.of_nat (length outcomes) + 1 ->
      last (effects (heartbeat_settled outcome (heartbeats outcomes w)))
        = Some (escalation (mgr w))).
Proof.
  intros Hos Ho.
  destruct (failures_frame outcomes w Hos) as (S1 & C1 & T1).
  destruct (failure_is_handled outcome (heartbeats outcomes w) Ho) as [reason E].
  destruct (handleFailure_spec reason (heartbeats outcomes w)) as (S2 & C2 & _ & L2).
  rewrite E, S2, C2, S1, C1.
  repeat split. intros Hth. rewrite L2.
  - unfold escalation. now rewrite T1.
  - rewrite T1, C1. exact Hth.
Qed.

(** A callback whose call throws. *)
Definition throws (callback : option (unit -> result unit)) : Prop :=
  match callback with
  | Some f => match f tt with Ok _ => False | Throw _ => True end
  | None => False
  end.

Lemma parsed_body_spec (status : Z) (data : HeartbeatResponse) (w : World) :
  ok status = true ->
  (killSwitch data = true ->
     killSwitchActive
       (enforcerState (heartbeat_settled (Responded status (Ok (Some data))) w))
     = true
     /\ killSwitchMessage_
          (enforcerState
             (heartbeat_settled (Responded status (Ok (Some data))) w))
        = killSwitchMessage data)
  /\ (killSwitch data = false ->
       killSwitchActive
         (enforcerState
            (heartbeat_settled (Responded status (Ok (Some data))) w)) = false
       /\ killSwitchMessage_
            (enforcerState
               (heartbeat_settled (Responded status (Ok (Some data))) w))
          = None)
  /\ policy (enforcerState
               (heartbeat_settled (Responded status (Ok (Some data))) w))
     = policy (enforcerState w)
  /\ (exists new : list Effect,
        effects (heartbeat_settled (Responded status (Ok (Some data))) w)
          = effects w ++ new
        /\ refresh_calls new =
             if refreshPolicyNow data
             then match onPolicyRefreshNeeded (mgr w) with
                  | Some _ => 1%nat
                  | None => 0%nat
                  end
             else 0%nat)
  /\ ((refreshPolicyNow data = true -> returns (onPolicyRefreshNeeded (mgr w))) ->
      consecutiveFailures
        (mgr (heartbeat_settled (Responded status (Ok (Some data))) w)) = 0)
  /\ (refreshPolicyNow data = true -> throws (onPolicyRefreshNeeded (mgr w)) ->
      consecutiveFailures
        (mgr (heartbeat_settled (Responded status (Ok (Some data))) w)) = 1).
Proof.
  intros Hok. unfold heartbeat_settled. rewrite Hok. cbn [negb].
  unfold returns, throws, handleFailure.
  destruct w as [m st es]. destruct data as [pv ks msg rf].
  cbn [killSwitch killSwitchMessage refreshPolicyNow mgr enforcerState effects].
  destruct ks, (killSwitchActive st) eqn:Hact, rf;
    destruct (onPolicyRefreshNeeded m) as [cb|] eqn:Hcb; cbn; rewrite ?Hcb;
    try destruct (cb tt); cbn;
    try destruct (0 + 1 >=? failureThreshold m); cbn.
  all: (split; [intros Hk; first [discriminate Hk | split; reflexivity]|]).
  all: (split; [intros Hk; first [discriminate Hk | split; reflexivity]|]).
  all: (split; [reflexivity|]).
  all: split.
  all: try (exists []; split; [now rewrite app_nil_r | reflexivity]).
  all: try (eexists; (split; [rewrite <- ?app_assoc; reflexivity | reflexivity])).
  all: split.
  all: try (intros H; first [reflexivity | exfalso; now apply H]).
  all: intros H T; first [reflexivity | discriminate H | contradiction T].
Qed.

Lemma handleFailure_effects (reason : FailureReason) (w : World) :
  exists new : list Effect,
    effects (handleFailure reason w) = effects w ++ new
    /\ refresh_calls new = 0%nat.
Proof.
  unfold handleFailure.
  destruct (_ >=? _); cbn [effects emit]; eexists;
    (split; [rewrite <- ?app_assoc; reflexivity | reflexivity]).
Qed.

Lemma unparsable_body_spec (status : Z) (err : JSError) (w : World) :
  ok status = true ->
  enforcerState (heartbeat_settled (Responded status (Throw err)) w)
    = enforcerState w
  /\ consecutiveFailures
       (mgr (heartbeat_settled (Responded status (Throw err)) w))
     = consecutiveFailures (mgr w) + 1
  /\ exists new : list Effect,
       effects (heartbeat_settled (Responded status (Throw err)) w)
         = effects w ++ new
       /\ refresh_calls new = 0%nat.
Proof.
  intros Hok. unfold heartbeat_settled. rewrite Hok. cbn [negb].
  destruct (handleFailure_spec (Caught err) w) as (S & C & _).
  split; [exact S|]. split; [exact C|]. apply handleFailure_effects.
Qed.

Lemma null_body_spec (status : Z) (w : World) :
  ok status = true ->
  enforcerState (heartbeat_settled (Responded status (Ok None)) w)
    = enforcerState w
  /\ consecutiveFailures
       (mgr (heartbeat_settled (Responded status (Ok None)) w)) = 1
  /\ exists new : list Effect,
       effects (heartbeat_settled (Responded status (Ok None)) w)
         = effects w ++ new
       /\ refresh_calls new = 0%nat.
Proof.
  intros Hok. unfold heartbeat_settled. rewrite Hok. cbn [negb].
  set (w0 := {| mgr := set_consecutiveFailures 0 (mgr w);
                enforcerState := enforcerState w; effects := effects w |}).
  destruct (handleFailure_spec (Caught TypeError) w0) as (S & C & _).
  split; [exact S|]. split; [exact C|].
  apply (handleFailure_effects (Caught TypeError) w0).
Qed.

(** C8, as the code has it.  When a heartbeat response is 2xx and its
    body parses to a value [data] other than [null]:
    [data.killSwitch = true] makes [killSwitchActive] true and
    [killSwitchMessage] the message of the response;
    [data.killSwitch = false] makes [killSwitchActive] false and clears
    the message; the policy is not touched; the injected refresh callback
    is called once when [data.refreshPolicyNow] is set (and a callback was
    injected) and not at all otherwise; and the consecutive-failure
    counter ends at zero when the callback, if called, returns, and at one
    when the callback is called and throws.  When the response is 2xx and
    its body does not parse, the heartbeat is a failure: the enforcement
    state is left as it was, the counter grows by one and the callback is
    not called.  When the response is 2xx and its body is [null], the
    enforcement state is left as it was, the callback is not called, and
    the counter, reset before the body is read, ends at one. *)
Theorem heartbeat_response_sets_kill_switch
    (status : Z) (data : HeartbeatResponse) (w : World) :
  ok status = true ->
  (killSwitch data = true ->
     killSwitchActive
       (enforcerState (heartbeat_settled (Responded status (Ok (Some data))) w))
     = true
     /\ killSwitchMessage_
          (enforcerState
             (heartbeat_settled (Responded status (Ok (Some data))) w))
        = killSwitchMessage data)
  /\ (killSwitch data = false ->
       killSwitchActive
         (enforcerState
            (heartbeat_settled (Responded status (Ok (Some data))) w)) = false
       /\ killSwitchMessage_
            (enforcerState
               (heartbeat_settled (Responded status (Ok (Some data))) w))
          = None)
  /\ policy (enforcerState
               (heartbeat_settled (Responded status (Ok (Some data))) w))
     = policy (enforcerState w)
  /\ (exists new : list Effect,
        effects (heartbeat_settled (Responded status (Ok (Some data))) w)
          = effects w ++ new
        /\ refresh_calls new =
             if refreshPolicyNow data
             then match onPolicyRefreshNeeded (mgr w) with
                  | Some _ => 1%nat
                  | None => 0%nat
                  end
             else 0%nat)
  /\ ((refreshPolicyNow data = true -> returns (onPolicyRefreshNeeded (mgr w))) ->
      consecutiveFailures
        (mgr (heartbeat_settled (Responded status (Ok (Some data))) w)) = 0)
  /\ (refreshPolicyNow data = true -> throws (onPolicyRefreshNeeded (mgr w)) ->
      consecutiveFailures
        (mgr (heartbeat_settled (Responded status (Ok (Some data))) w)) = 1)
  /\ (forall err : JSError,
        enforcerState (heartbeat_settled (Responded status (Throw err)) w)
          = enforcerState w
        /\ consecutiveFailures
             (mgr (heartbeat_settled (Responded status (Throw err)) w))
           = consecutiveFailures (mgr w) + 1
        /\ exists new : list Effect,
             effects (heartbeat_settled (Responded status (Throw err)) w)
               = effects w ++ new
             /\ refresh_calls new = 0%nat)
  /\ enforcerState (heartbeat_settled (Responded status (Ok None)) w)
       = enforcerState w
  /\ consecutiveFailures
       (mgr (heartbeat_settled (Responded status (Ok None)) w)) = 1
  /\ exists new : list Effect,
       effects (heartbeat_settled (Responded status (Ok None)) w)
         = effects w ++ new
       /\ refresh_calls new = 0%nat.
Proof.
  intros Hok.
  destruct (parsed_body_spec status data w Hok) as (On & Off & P & R & Z0 & Z1).
  repeat (split; [assumption|]).
  split; [intros err; now apply unparsable_body_spec|].
  now apply null_body_spec.
Qed.

Definition sample_mgr (callback : option (unit -> result unit)) (failures : Z) : t :=
  {| timer := true; consecutiveFailures := failures; intervalMs := 100;
     failureThreshold := 3;
     controlPlaneUrl := "https://clawguard.example.com";
     orgId := "org-123"; userId := "user-1"; accessToken := "test-token";
     onPolicyRefreshNeeded := callback |}.

Definition sample_world (callback : option (unit -> result unit)) (failures : Z)
    (active : bool) (message : option string) : World :=
  {| mgr := sample_mgr callback failures;
     enforcerState := {| policy := None; killSwitchActive := active;
                         killSwitchMessage_ := message |};
     effects := [] |}.

(** C8 as stated fails on the counter: a 2xx response whose body does not
    parse is handled as a failure, and so are a body that is [null] and a
    refresh callback that throws; in these runs the counter is not zero
    afterwards. *)
Lemma success_resets_failure_counter_counterexample :
  ok 200 = true
  /\ consecutiveFailures
       (mgr (heartbeat (Responded 200 (Throw SyntaxError))
               (sample_world None 2 false None))) = 3
  /\ consecutiveFailures
       (mgr (heartbeat (Responded 200 (Ok None))
               (sample_world None 2 false None))) = 1
  /\ consecutiveFailures
       (mgr (heartbeat
               (Responded 200
                  (Ok (Some {| policyVersion := 2; killSwitch := false;
                               killSwitchMessage := None;
                               refreshPolicyNow := true |})))
               (sample_world (Some (fun _ => Throw (UserError "refresh failed")))
                  2 false None))) = 1.
Proof. repeat split. Qed.

Lemma heartbeat_response_sets_kill_switch_witness :
  killSwitchActive
    (enforcerState
       (heartbeat_settled
          (Responded 200
             (Ok (Some {| policyVersion := 1; killSwitch := true;
                          killSwitchMessage := Some "Shutdown now";
                          refreshPolicyNow := true |})))
          (sample_world (Some (fun _ => Ok tt)) 2 false None))) = true
  /\ consecutiveFailures
       (mgr (heartbeat_settled
               (Responded 200
                  (Ok (Some {| policyVersion := 1; killSwitch := true;
                               killSwitchMessage := Some "Shutdown now";
                               refreshPolicyNow := true |})))
               (sample_world (Some (fun _ => Ok tt)) 2 false None))) = 0
  /\ consecutiveFailures
       (mgr (heartbeat_settled (Responded 200 (Throw SyntaxError))
               (sample_world (Some (fun _ => Ok tt)) 2 false None))) = 2 + 1
  /\ consecutiveFailures
       (mgr (heartbeat_settled (Responded 200 (Ok None))
               (sample_world (Some (fun _ => Ok tt)) 2 false None))) = 1.
Proof.
  destruct (heartbeat_response_sets_kill_switch 200
              {| policyVersion := 1; killSwitch := true;
                 killSwitchMessage := Some "Shutdown now";
                 refreshPolicyNow := true |}
              (sample_world (Some (fun _ => Ok tt)) 2 false None) eq_refl)
    as (On & _ & _ & _ & C & _ & U & _ & N & _).
  split; [apply On; reflexivity|].
  split; [apply C; intros _; exact I|].
  split; [apply (U SyntaxError) | exact N].
Defined.

Lemma failures_never_flip_kill_switch_witness :
  enforcerState
    (heartbeat_settled (Responded 503 (Throw SyntaxError))
       (heartbeats [Responded 500 (Throw SyntaxError);
                    Rejected (NetworkError "fetch failed")]
          (sample_world None 0 true (Some "Was active"))))
  = {| policy := None; killSwitchActive := true;
       killSwitchMessage_ := Some "Was active" |}
  /\ consecutiveFailures
       (mgr (heartbeat_settled (Responded 503 (Throw SyntaxError))
               (heartbeats [Responded 500 (Throw SyntaxError);
                            Rejected (NetworkError "fetch failed")]
                  (sample_world None 0 true (Some "Was active"))))) = 3.
Proof.
  destruct (failures_never_flip_kill_switch
              [Responded 500 (Throw SyntaxError);
               Rejected (NetworkError "fetch failed")]
              (Responded 503 (Throw SyntaxError))
              (sample_world None 0 true (Some "Was active")))
    as (S & _ & _ & C & _).
  - repeat constructor.
  - reflexivity.
  - split; [exact S | exact C].
Defined.

End KillSwitchFacts.

(* ===================================================================== *)
(** * More on the tool enforcer                                           *)
(* ===================================================================== *)

Module ToolEnforcerMore.

#[local] Set Warnings "-clear-no-such-hyp".

Import JSString JSStringFacts ToolEnforcer ToolEnforcerFacts.

(** The names one entry of a policy list stands for. *)
Definition expandEntry (entry : string) : gset ToolKey :=
  match TOOL_GROUPS !! keyString (normalizeToolName entry) with
  | Some group => list_to_set (Name <$> group)
  | None => {[ normalizeToolName entry ]}
  end.

Lemma add_group (group : list string) (s : gset ToolKey) :
  foldl (fun acc tool => set_add (Name tool) acc) s group =
    list_to_set (Name <$> group) ∪ s.
Proof.
  revert s. induction group as [|t g IH]; intros s; cbn [foldl].
  - set_solver.
  - rewrite IH. unfold set_add. set_solver.
Qed.

Lemma expand_loop (entries : list string) (acc : gset ToolKey) (x : ToolKey) :
  x ∈ foldl (fun expanded entry =>
               let normalized := normalizeToolName entry in
               match PlainObject.get TOOL_GROUPS (keyString normalized) with
               | PlainObject.Own group =>
                   foldl (fun acc tool => set_add (Name tool) acc)
                         expanded group
               | PlainObject.FromPrototype _ => expanded
               | PlainObject.Undefined => set_add normalized expanded
               end) acc entries
  <-> x ∈ acc \/ exists entry, entry ∈ entries /\ x ∈ expandEntry entry.
Proof.
  revert acc. induction entries as [|e es IH]; intros acc; cbn [foldl].
  - split; [now left|]. intros [H|(e & He & _)]; [exact H|]. inversion He.
  - rewrite IH. cbv zeta.
    assert (E : x ∈ match PlainObject.get TOOL_GROUPS
                            (keyString (normalizeToolName e)) with
                    | PlainObject.Own group =>
                        foldl (fun acc tool => set_add (Name tool) acc) acc group
                    | PlainObject.FromPrototype _ => acc
                    | PlainObject.Undefined => set_add (normalizeToolName e) acc
                    end
                <-> x ∈ acc \/ x ∈ expandEntry e).
    { rewrite group_lookup_not_inherited. unfold expandEntry, set_add.
      destruct (TOOL_GROUPS !! keyString (normalizeToolName e));
        [rewrite add_group|]; set_solver. }
    rewrite E. split.
    + intros [[H|H]|(e' & He' & H)].
      * now left.
      * right. exists e. split; [left | exact H].
      * right. exists e'. split; [now right | exact H].
    + intros [H|(e' & He' & H)].
      * left. now left.
      * apply elem_of_cons in He' as [->|He'].
        -- left. now right.
        -- right. now exists e'.
Qed.

Lemma expandGroups_spec (entries : list string) (x : ToolKey) :
  x ∈ expandGroups entries
  <-> exists entry,
        entry ∈ entries
        /\ match TOOL_GROUPS !! keyString (normalizeToolName entry) with
           | Some group => x ∈ Name <$> group
           | None => x = normalizeToolName entry
           end.
Proof.
  unfold expandGroups. rewrite expand_loop. split.
  - intros [H|(e & He & H)]; [set_solver|].
    exists e. split; [exact He|]. unfold expandEntry in H.
    destruct (TOOL_GROUPS !! keyString (normalizeToolName e)); set_solver.
  - intros (e & He & H). right. exists e. split; [exact He|].
    unfold expandEntry.
    destruct (TOOL_GROUPS !! keyString (normalizeToolName e)); set_solver.
Qed.

(** X1. [expandGroups] yields exactly the names its entries stand for: a
    name is in the result iff some entry of the list, once normalized,
    is a group that contains the name, or is not a group and is the
    name. *)
Theorem elem_of_expandGroups (entries : list string) (x : ToolKey) :
  x ∈ expandGroups entries
  <-> exists entry,
        entry ∈ entries
        /\ match TOOL_GROUPS !! keyString (normalizeToolName entry) with
           | Some group => x ∈ Name <$> group
           | None => x = normalizeToolName entry
           end.
Proof. apply expandGroups_spec. Qed.

(** X2. The expansion of a concatenation is the union of the expansions,
    whatever the two lists; and the expansion of a policy list depends
    only on which entries occur in it: two lists with the same entries,
    in any order and with any repetition, expand to the same set. *)
Theorem expandGroups_same_entries (l1 l2 : list string) :
  expandGroups (l1 ++ l2) = expandGroups l1 ∪ expandGroups l2
  /\ ((forall e, e ∈ l1 <-> e ∈ l2) -> expandGroups l1 = expandGroups l2).
Proof.
  split.
  - apply set_eq; intros x.
    rewrite elem_of_union, !expandGroups_spec. split.
    + intros (e & He & Hx). apply elem_of_app in He as [He|He];
        [left | right]; now exists e.
    + intros [(e & He & Hx)|(e & He & Hx)]; exists e;
        (split; [apply elem_of_app; auto | exact Hx]).
  - intros H. apply set_eq; intros x.
    rewrite !expandGroups_spec. split; intros (e & He & Hx);
      exists e; (split; [now apply H | exact Hx]).
Qed.

Lemma expandGroups_same_entries_witness :
  expandGroups (["exec"; "group:fs"; "exec"] ++ ["group:fs"; "exec"]) =
    expandGroups ["exec"; "group:fs"; "exec"] ∪ expandGroups ["group:fs"; "exec"]
  /\ expandGroups ["exec"; "group:fs"; "exec"] = expandGroups ["group:fs"; "exec"].
Proof.
  split.
  - exact (proj1 (expandGroups_same_entries
                    ["exec"; "group:fs"; "exec"] ["group:fs"; "exec"])).
  - apply (proj2 (expandGroups_same_entries
                    ["exec"; "group:fs"; "exec"] ["group:fs"; "exec"])).
    intros e. rewrite !elem_of_cons. tauto.
Defined.

(** X3. Policy entries are matched after normalization: when every entry
    of a list normalizes to a string, the list and the list of those
    strings expand to the same set, so an entry written with other case,
    surrounding white space or an alias stands for the same tools.  (An
    entry that trims and lower-cases to [constructor] or [__proto__]
    normalizes to no string.) *)
Theorem expandGroups_normalized_entries (entries names : list string) :
  Forall2 (fun entry name => normalizeToolName entry = Name name) entries names ->
  expandGroups names = expandGroups entries.
Proof.
  intros F. apply set_eq. intros x. rewrite !expandGroups_spec. split.
  - intros (n & Hn & Hx).
    apply list_elem_of_lookup in Hn as [i Hi].
    destruct (Forall2_lookup_r _ _ _ _ _ F Hi) as (e & He & E).
    apply normalizeToolName_Name in E as H. destruct H as [_ I].
    exists e. split; [now apply list_elem_of_lookup_2 in He|].
    now rewrite E, <- I.
  - intros (e & He & Hx).
    apply list_elem_of_lookup in He as [i Hi].
    destruct (Forall2_lookup_l _ _ _ _ _ F Hi) as (n & Hn & E).
    apply normalizeToolName_Name in E as H. destruct H as [_ I].
    exists n. split; [now apply list_elem_of_lookup_2 in Hn|].
    now rewrite I, <- E.
Qed.

Lemma expandGroups_normalized_entries_witness :
  expandGroups ["exec"; "group:fs"] = expandGroups [" Bash"; "Group:FS "].
Proof.
  apply (expandGroups_normalized_entries
           [" Bash"; "Group:FS "] ["exec"; "group:fs"]).
  repeat (constructor; [vm_compute; reflexivity|]). constructor.
Defined.

Lemma group_members_normalized (g : string) (group : list string) :
  TOOL_GROUPS !! g = Some group ->
  Forall (fun tool => normalizeToolName tool = Name tool) group.
Proof.
  intros H. unfold TOOL_GROUPS in H. apply elem_of_list_to_map_2 in H.
  repeat (apply elem_of_cons in H as [[= -> ->]|H];
          [repeat (constructor; [vm_compute; reflexivity|]); constructor|]).
  inversion H.
Qed.

(** X4. Every string in an expansion is a normalized name, the form in
    which the hook looks names up: normalizing it again changes nothing.
    A member that is not a string is [Object] or [Object.prototype],
    there because an entry of the list normalizes to it. *)
Theorem expandGroups_members_normalized (entries : list string) (x : ToolKey) :
  x ∈ expandGroups entries ->
  match x with
  | Name s => normalizeToolName s = Name s
  | Inherited m =>
      (m = PlainObject.Object_constructor \/ m = PlainObject.Object_proto)
      /\ exists entry, entry ∈ entries /\ normalizeToolName entry = Inherited m
  end.
Proof.
  rewrite expandGroups_spec. intros (e & He & Hx).
  destruct (TOOL_GROUPS !! keyString (normalizeToolName e)) as [group|] eqn:E.
  - apply list_elem_of_fmap in Hx as (tool & -> & Ht).
    apply group_members_normalized in E. rewrite Forall_forall in E.
    now apply E.
  - subst x. destruct (normalizeToolName e) as [s|m] eqn:N.
    + now apply normalizeToolName_Name in N.
    + split; [|now exists e].
      destruct (normalizeToolName_cases e)
        as [[_ E']|[[_ E']|[[_ E']|[[_ E']|(_ & _ & _ & E')]]]];
        rewrite E' in N; try discriminate N; injection N as <-; auto.
Qed.

Lemma expandGroups_members_normalized_witness :
  normalizeToolName "apply_patch" = Name "apply_patch".
Proof.
  apply (expandGroups_members_normalized ["Group:FS"; "bash"]
           (Name "apply_patch")).
  apply (bool_decide_unpack _). vm_compute. exact I.
Defined.

(** A normalized name is in normal form: it has no white space at
    either end and no upper-case letter, so trimming it or lower-casing
    it gives it back. *)
Lemma normalizeToolName_normal_form (name s : string) :
  normalizeToolName name = Name s ->
  trim s = s /\ toLowerCase s = s.
Proof.
  intros E.
  destruct (normalizeToolName_cases name)
    as [[_ E']|[[_ E']|[[_ E']|[[_ E']|(_ & _ & _ & E')]]]];
    rewrite E' in E; try discriminate E; injection E as <-.
  - split; reflexivity.
  - split; reflexivity.
  - split.
    + now rewrite trim_toLowerCase, trim_idem.
    + apply toLowerCase_idem.
Qed.

(** ** The decision *)

Lemma denied_spec (p : OrgPolicy) (n : ToolKey) :
  match nonEmptyList (deny (tools p)) with
  | Some l => set_has (expandGroups l) n
  | None => false
  end = true
  <-> exists l, deny (tools p) = Some l /\ n ∈ expandGroups l.
Proof.
  unfold set_has. destruct (deny (tools p)) as [[|d l]|]; cbn [nonEmptyList].
  - split; [discriminate|]. intros (l & [= <-] & H).
    rewrite expandGroups_nil in H. set_solver.
  - rewrite bool_decide_eq_true. split.
    + intros H. now exists (d :: l).
    + now intros (l' & [= <-] & H).
  - split; [discriminate|]. now intros (l & [=] & _).
Qed.

Lemma unlisted_spec (p : OrgPolicy) (n : ToolKey) :
  match nonEmptyList (allow (tools p)) with
  | Some l => negb (set_has (expandGroups l) n)
  | None => false
  end = true
  <-> exists l, allow (tools p) = Some l /\ l <> [] /\ n ∉ expandGroups l.
Proof.
  unfold set_has. destruct (allow (tools p)) as [[|d l]|]; cbn [nonEmptyList].
  - split; [discriminate|]. now intros (l & [= <-] & H & _).
  - rewrite negb_true_iff, bool_decide_eq_false. split.
    + intros H. now exists (d :: l).
    + now intros (l' & [= <-] & _ & H).
  - split; [discriminate|]. now intros (l & [=] & _).
Qed.

Lemma blocks_spec (state : ToolEnforcerState) (event : BeforeToolCallEvent)
    (ctx : ToolContext) :
  blocks (createToolEnforcerHook state event ctx) = true
  <-> killSwitchActive state = true
      \/ exists p,
           policy state = Some p
           /\ ((exists l, deny (tools p) = Some l
                          /\ normalizeToolName (toolName event) ∈ expandGroups l)
               \/ (exists l, allow (tools p) = Some l /\ l <> []
                             /\ normalizeToolName (toolName event) ∉ expandGroups l)).
Proof.
  unfold createToolEnforcerHook, blocks.
  destruct (killSwitchActive state); [split; [now left | reflexivity]|].
  destruct (policy state) as [p|].
  2:{ split; [discriminate|]. intros [|(p & [=] & _)]; discriminate. }
  pose proof (denied_spec p (normalizeToolName (toolName event))) as D.
  pose proof (unlisted_spec p (normalizeToolName (toolName event))) as U.
  destruct (match nonEmptyList (deny (tools p)) with
            | Some l => set_has (expandGroups l) (normalizeToolName (toolName event))
            | None => false
            end).
  { split; [|reflexivity]. intros _. right. exists p. split; [reflexivity|].
    left. now apply D. }
  destruct (match nonEmptyList (allow (tools p)) with
            | Some l => negb (set_has (expandGroups l)
                                (normalizeToolName (toolName event)))
            | None => false
            end).
  { split; [|reflexivity]. intros _. right. exists p. split; [reflexivity|].
    right. now apply U. }
  split; [discriminate|].
  intros [|(p' & [= <-] & [H|H])]; [discriminate| |].
  - apply D in H. discriminate.
  - apply U in H. discriminate.
Qed.

(** X5. The hook blocks a call exactly when the kill switch is active,
    or a policy is loaded and the normalized name is in the expansion of
    its deny list or is missing from the expansion of a non-empty allow
    list.  In particular no policy, an empty allow list or no allow list
    restricts nothing. *)
Theorem hook_blocks_iff (state : ToolEnforcerState) (event : BeforeToolCallEvent)
    (ctx : ToolContext) :
  blocks (createToolEnforcerHook state event ctx) = true
  <-> killSwitchActive state = true
      \/ exists p,
           policy state = Some p
           /\ ((exists l, deny (tools p) = Some l
                          /\ normalizeToolName (toolName event) ∈ expandGroups l)
               \/ (exists l, allow (tools p) = Some l /\ l <> []
                             /\ normalizeToolName (toolName event) ∉ expandGroups l)).
Proof. apply blocks_spec. Qed.

Lemma audit_call_spec (state : ToolEnforcerState) (event : BeforeToolCallEvent)
    (ctx : ToolContext) :
  exists p,
    audited (createToolEnforcerHook state event ctx) = [p]
    /\ p_eventType p = tool_call_attempt
    /\ p_toolName p = Some (normalizeToolName (toolName event))
    /\ p_agentId p = agentId ctx
    /\ p_sessionKey p = sessionKey ctx
    /\ p_outcome p = (if blocks (createToolEnforcerHook state event ctx)
                      then blocked else allowed)
    /\ (blocks (createToolEnforcerHook state event ctx) = true ->
        exists r, p_metadata p = Some [("reason", JStr r)]).
Proof.
  unfold createToolEnforcerHook, blocks, audited.
  destruct (killSwitchActive state).
  { eexists. repeat split. intros _. eexists. reflexivity. }
  destruct (policy state) as [p|].
  2:{ eexists. repeat split. discriminate. }
  destruct (match nonEmptyList (deny (tools p)) with
            | Some l => set_has (expandGroups l) (normalizeToolName (toolName event))
            | None => false
            end).
  { eexists. repeat split. intros _. eexists. reflexivity. }
  destruct (match nonEmptyList (allow (tools p)) with
            | Some l => negb (set_has (expandGroups l)
                                (normalizeToolName (toolName event)))
            | None => false
            end).
  { eexists. repeat split. intros _. eexists. reflexivity. }
  eexists. repeat split. discriminate.
Qed.

(** X6. Every run of the hook calls [enqueue] exactly once, for a
    [tool_call_attempt] on the normalized tool name with the agent and
    session of the context; the audited outcome is [blocked] when the run
    blocks and [allowed] when it does not, and a blocked call always
    carries a reason. *)
Theorem hook_audits_once (state : ToolEnforcerState) (event : BeforeToolCallEvent)
    (ctx : ToolContext) :
  exists p,
    audited (createToolEnforcerHook state event ctx) = [p]
    /\ p_eventType p = tool_call_attempt
    /\ p_toolName p = Some (normalizeToolName (toolName event))
    /\ p_agentId p = agentId ctx
    /\ p_sessionKey p = sessionKey ctx
    /\ p_outcome p = (if blocks (createToolEnforcerHook state event ctx)
                      then blocked else allowed)
    /\ (blocks (createToolEnforcerHook state event ctx) = true ->
        exists r, p_metadata p = Some [("reason", JStr r)]).
Proof. apply audit_call_spec. Qed.

(** X7. With the kill switch off and a policy whose deny list is one
    group name and which has no allow list, the hook blocks exactly the
    tools of that group: every member, under any spelling that
    normalizes to it, and nothing else. *)
Theorem deny_group_blocks_its_members
    (state : ToolEnforcerState) (p : OrgPolicy) (g : string) (group : list string)
    (event : BeforeToolCallEvent) (ctx : ToolContext) :
  killSwitchActive state = false ->
  policy state = Some p ->
  deny (tools p) = Some [g] ->
  allow (tools p) = None ->
  TOOL_GROUPS !! keyString (normalizeToolName g) = Some group ->
  (blocks (createToolEnforcerHook state event ctx) = true
   <-> normalizeToolName (toolName event) ∈ Name <$> group).
Proof.
  intros Hk Hp Hd Ha Hg. rewrite blocks_spec. split.
  - intros [H|(p' & Hp' & [(l & Hl & Hin)|(l & Hl & _)])].
    + congruence.
    + assert (p' = p) as -> by congruence.
      assert (l = [g]) as -> by congruence.
      apply expandGroups_spec in Hin as (e & He & Hx).
      apply list_elem_of_singleton in He as ->. now rewrite Hg in Hx.
    + congruence.
  - intros Hin. right. exists p. split; [exact Hp|]. left.
    exists [g]. split; [exact Hd|]. apply expandGroups_spec.
    exists g. split; [apply list_elem_of_singleton; reflexivity|]. now rewrite Hg.
Qed.

Definition deny_runtime_state : ToolEnforcerState :=
  {| policy := Some {| version := 1;
                       tools := {| allow := None; deny := Some ["group:runtime"];
                                   profile := None |};
                       skills_approved := [];
                       skills_requireApproval := false;
                       killSwitch_active := false;
                       killSwitch_message := None;
                       policy_auditLevel := metadata |};
     killSwitchActive := false;
     killSwitchMessage_ := None |}.

Lemma deny_group_blocks_its_members_witness :
  blocks (createToolEnforcerHook deny_runtime_state {| toolName := " Process" |}
            sample_ctx) = true.
Proof.
  apply (deny_group_blocks_its_members deny_runtime_state
           {| version := 1;
              tools := {| allow := None; deny := Some ["group:runtime"];
                          profile := None |};
              skills_approved := [];
              skills_requireApproval := false;
              killSwitch_active := false;
              killSwitch_message := None;
              policy_auditLevel := metadata |}
           "group:runtime" ["exec"; "process"] {| toolName := " Process" |}
           sample_ctx eq_refl eq_refl eq_refl eq_refl).
  - vm_compute. reflexivity.
  - apply (bool_decide_unpack _). vm_compute. exact I.
Defined.

End ToolEnforcerMore.

(* ===================================================================== *)
(** * More on the policy cache                                            *)
(* ===================================================================== *)

Module OrgPolicyCacheMore.

Import FS OrgPolicyCache.

Section CacheMore.
Context {codec : JSON CachedPolicy}.

(** The TTL a load applies: the one it is given, else the one in the
    file, else the default. *)
Definition effective_ttl (atLoad atSave : option Z) : Z :=
  match atLoad with
  | Some T => T
  | None => match atSave with
            | Some T => T
            | None => DEFAULT_TTL_MS
            end
  end.

Lemma load_saved (disk : Disk) (c : CachedPolicy) (now : Z) (ttl : option Z) :
  JSON_parse (JSON_stringify c) = Ok c ->
  loadCachedPolicy (<[CACHE_FILE := JSON_stringify c]> disk) now ttl
  = if now - fetchedAt c >? default (default DEFAULT_TTL_MS (ttlMs c)) ttl
    then Ok None else Ok (Some (cached_policy c)).
Proof.
  intros RT. unfold loadCachedPolicy, readFileSync. rewrite lookup_insert_eq.
  cbn [rbind]. rewrite RT. cbn [rbind].
  destruct (_ >? _); reflexivity.
Qed.

(** X8. Which TTL counts: a load that is given a TTL applies it and
    ignores the one saved in the file; a load without one applies the TTL
    the policy was saved with, which is one hour when the save was given
    none.  The policy comes back exactly while its age is within that
    TTL. *)
Theorem load_ttl_precedence
    (disk : Disk) (policy : OrgPolicy) (atSave atLoad : option Z)
    (savedAt now : Z) :
  JSON_parse (JSON_stringify {| cached_policy := policy; fetchedAt := savedAt;
                                ttlMs := Some (default DEFAULT_TTL_MS atSave) |})
    = Ok {| cached_policy := policy; fetchedAt := savedAt;
            ttlMs := Some (default DEFAULT_TTL_MS atSave) |} ->
  exists disk',
    saveCachedPolicy disk savedAt policy atSave = Ok disk'
    /\ (now - savedAt <= effective_ttl atLoad atSave ->
        loadCachedPolicy disk' now atLoad = Ok (Some policy))
    /\ (effective_ttl atLoad atSave < now - savedAt ->
        loadCachedPolicy disk' now atLoad = Ok None)
    /\ DEFAULT_TTL_MS = 3600000.
Proof.
  intros RT. eexists. split; [reflexivity|].
  rewrite (load_saved _ _ _ _ RT). cbn [fetchedAt ttlMs cached_policy].
  assert (E : default (default DEFAULT_TTL_MS (Some (default DEFAULT_TTL_MS atSave)))
                atLoad = effective_ttl atLoad atSave).
  { destruct atLoad, atSave; reflexivity. }
  rewrite E. repeat split.
  - intros H. destruct (Z.gtb_spec (now - savedAt) (effective_ttl atLoad atSave));
      [lia | reflexivity].
  - intros H. destruct (Z.gtb_spec (now - savedAt) (effective_ttl atLoad atSave));
      [reflexivity | lia].
Qed.

(** X9. The fallback load never has less than the TTL-bound load: on
    any disk, a policy that [loadCachedPolicy] returns is the one
    [loadCachedPolicyFallback] returns, and where the fallback has
    nothing the TTL-bound load has nothing either. *)
Theorem fallback_covers_load (disk : Disk) (now : Z) (ttl : option Z) :
  (forall p, loadCachedPolicy disk now ttl = Ok (Some p) ->
             loadCachedPolicyFallback disk = Ok (Some p))
  /\ (loadCachedPolicyFallback disk = Ok None ->
      loadCachedPolicy disk now ttl = Ok None).
Proof.
  unfold loadCachedPolicy, loadCachedPolicyFallback, readFileSync.
  destruct (disk !! CACHE_FILE) as [raw|]; cbn [rbind try_catch];
    [|split; [discriminate | reflexivity]].
  destruct (JSON_parse raw) as [c|e]; cbn [rbind try_catch];
    [|split; [discriminate | reflexivity]].
  destruct (_ >? _); split; (discriminate || auto).
Qed.

(** X10. Expiry is final: on a fixed disk and TTL, once
    [loadCachedPolicy] returns [null] it returns [null] at every later
    time, and a policy returned at some time is returned at every earlier
    one. *)
Theorem load_expiry_is_monotone (disk : Disk) (now later : Z) (ttl : option Z) :
  now <= later ->
  (loadCachedPolicy disk now ttl = Ok None ->
   loadCachedPolicy disk later ttl = Ok None)
  /\ (forall p, loadCachedPolicy disk later ttl = Ok (Some p) ->
                loadCachedPolicy disk now ttl = Ok (Some p)).
Proof.
  intros Hle. unfold loadCachedPolicy, readFileSync.
  destruct (disk !! CACHE_FILE) as [raw|]; cbn [rbind try_catch];
    [|split; [reflexivity | discriminate]].
  destruct (JSON_parse raw) as [c|e]; cbn [rbind try_catch];
    [|split; [reflexivity | discriminate]].
  set (T := default (default DEFAULT_TTL_MS (ttlMs c)) ttl).
  destruct (Z.gtb_spec (now - fetchedAt c) T),
           (Z.gtb_spec (later - fetchedAt c) T);
    split; try discriminate; try reflexivity; try lia; auto.
Qed.

(** X11. A save replaces the cached policy and nothing else: after two
    saves the fallback load returns the policy of the second, and every
    other file of the disk is as it was. *)
Theorem latest_save_wins
    (disk : Disk) (p1 p2 : OrgPolicy) (t1 t2 : Z) (ttl1 ttl2 : option Z) :
  JSON_parse (JSON_stringify {| cached_policy := p2; fetchedAt := t2;
                                ttlMs := Some (default DEFAULT_TTL_MS ttl2) |})
    = Ok {| cached_policy := p2; fetchedAt := t2;
            ttlMs := Some (default DEFAULT_TTL_MS ttl2) |} ->
  exists disk1 disk2,
    saveCachedPolicy disk t1 p1 ttl1 = Ok disk1
    /\ saveCachedPolicy disk1 t2 p2 ttl2 = Ok disk2
    /\ loadCachedPolicyFallback disk2 = Ok (Some p2)
    /\ (forall path, path <> CACHE_FILE -> disk2 !! path = disk !! path).
Proof.
  intros RT. eexists. eexists. split; [reflexivity|]. split; [reflexivity|].
  split.
  - unfold loadCachedPolicyFallback, readFileSync. rewrite lookup_insert_eq.
    cbn [rbind]. rewrite RT. reflexivity.
  - intros path Hne. cbn. rewrite !lookup_insert_ne by congruence. reflexivity.
Qed.

End CacheMore.

Import OrgPolicyCacheFacts.

Lemma load_ttl_precedence_witness :
  exists disk',
    saveCachedPolicy (codec := sample_cache_codec) ∅ 1000
      ToolEnforcerFacts.sample_policy (Some 60000) = Ok disk'
    /\ loadCachedPolicy (codec := sample_cache_codec) disk' 61001 None = Ok None
    /\ loadCachedPolicy (codec := sample_cache_codec) disk' 61001 (Some 90000)
       = Ok (Some ToolEnforcerFacts.sample_policy).
Proof.
  destruct (load_ttl_precedence (codec := sample_cache_codec) ∅
              ToolEnforcerFacts.sample_policy (Some 60000) None 1000 61001 eq_refl)
    as (d1 & S1 & _ & N & _).
  destruct (load_ttl_precedence (codec := sample_cache_codec) ∅
              ToolEnforcerFacts.sample_policy (Some 60000) (Some 90000) 1000 61001
              eq_refl)
    as (d2 & S2 & Y & _ & _).
  assert (d2 = d1) as -> by congruence.
  exists d1. split; [exact S1|]. split; [apply N | apply Y]; cbn; lia.
Defined.

Lemma load_expiry_is_monotone_witness :
  loadCachedPolicy (codec := sample_cache_codec)
    {[ CACHE_FILE := "{policy:{version:1},fetchedAt:1000,ttlMs:60000}" ]}
    90000 None = Ok None.
Proof.
  apply (load_expiry_is_monotone (codec := sample_cache_codec)
           {[ CACHE_FILE := "{policy:{version:1},fetchedAt:1000,ttlMs:60000}" ]}
           61001 90000 None).
  - lia.
  - reflexivity.
Defined.

Lemma latest_save_wins_witness :
  exists disk1 disk2,
    saveCachedPolicy (codec := sample_cache_codec) ∅ 500
      ToolEnforcerFacts.sample_policy None = Ok disk1
    /\ saveCachedPolicy (codec := sample_cache_codec) disk1 1000
         ToolEnforcerFacts.sample_policy (Some 60000) = Ok disk2
    /\ loadCachedPolicyFallback (codec := sample_cache_codec) disk2
       = Ok (Some ToolEnforcerFacts.sample_policy).
Proof.
  destruct (latest_save_wins (codec := sample_cache_codec) ∅
              ToolEnforcerFacts.sample_policy ToolEnforcerFacts.sample_policy
              500 1000 None (Some 60000) eq_refl)
    as (d1 & d2 & S1 & S2 & F & _).
  exists d1, d2. auto.
Defined.

End OrgPolicyCacheMore.

(* ===================================================================== *)
(** * auth/token-store.ts                                                 *)
(* ===================================================================== *)

Module TokenStore.

Import FS.

Definition SESSION_FILE : string := CLAWGUARD_DIR +:+ "/session.json".

(** [SessionTokens] with all its fields: the three of the record above
    and the optional ones. *)
Record Session : Type := {
  tokens : SessionTokens;
  refreshToken : option string;
  expiresAt : option Z;
  email : option string;
  roles : option (list string)
}.

Definition ensureDir (disk : Disk) : result Disk := mkdirSync disk CLAWGUARD_DIR.

Section Store.
Context {codec : JSON Session}.

Definition loadSession (disk : Disk) : result (option Session) :=
  try_catch
    (do! raw <- readFileSync disk SESSION_FILE;
     do! session <- JSON_parse raw;
     Ok (Some session))
    (fun _ => Ok None).

Definition saveSession (disk : Disk) (tokens : Session) : result Disk :=
  do! disk <- ensureDir disk;
  writeFileSync disk SESSION_FILE (JSON_stringify tokens).

Definition clearSession (disk : Disk) : result Disk :=
  try_catch (unlinkSync disk SESSION_FILE)
            (fun _ => Ok disk) (* Ignore if file does not exist. *).

End Store.

(** Truthiness of an optional number: [undefined] and [0] are falsy. *)
Definition truthyNumber (n : option Z) : bool :=
  match n with
  | Some v => negb (v =? 0)
  | None => false
  end.

(** [isSessionValid(tokens)], with [now] the value of [Date.now()]. *)
Definition isSessionValid (now : Z) (session : option Session) : bool :=
  match session with
  | None => false
  | Some s =>
      if negb (JSString.truthy (ses_accessToken (tokens s))) then false
      else if truthyNumber (expiresAt s) && (now >=? default 0 (expiresAt s))
      then false
      else true
  end.

End TokenStore.

Module TokenStoreFacts.

Import FS TokenStore.

Section StoreFacts.
Context {codec : JSON Session}.

(** X12. The session file round trip: a saved session is the one
    [loadSession] returns; after [clearSession] there is none; and
    [clearSession] succeeds whether or not the file exists, leaving a
    disk without the file unchanged. *)
Theorem session_save_load_clear (disk : Disk) (s : Session) :
  JSON_parse (JSON_stringify s) = Ok s ->
  exists disk1 disk2,
    saveSession disk s = Ok disk1
    /\ loadSession disk1 = Ok (Some s)
    /\ clearSession disk1 = Ok disk2
    /\ loadSession disk2 = Ok None
    /\ clearSession disk2 = Ok disk2.
Proof.
  intros RT. eexists. eexists. split; [reflexivity|]. split.
  - unfold loadSession, readFileSync. rewrite lookup_insert_eq.
    cbn [rbind]. rewrite RT. reflexivity.
  - split.
    + unfold clearSession, unlinkSync. rewrite lookup_insert_eq. reflexivity.
    + split.
      * unfold loadSession, readFileSync. rewrite lookup_delete_eq. reflexivity.
      * unfold clearSession, unlinkSync. rewrite lookup_delete_eq. reflexivity.
Qed.

(** A session file that is missing or that [JSON.parse] rejects
    is no session: [loadSession] returns [null] and does not throw, and
    such a session is never valid. *)
Lemma unreadable_session_is_invalid (disk : Disk) (now : Z) :
  (disk !! SESSION_FILE = None
   \/ exists raw e, disk !! SESSION_FILE = Some raw /\ JSON_parse raw = Throw e) ->
  loadSession disk = Ok None
  /\ isSessionValid now None = false.
Proof.
  unfold loadSession, readFileSync.
  intros [H|(raw & e & H & P)]; rewrite H; cbn [rbind try_catch].
  - split; reflexivity.
  - rewrite P. split; reflexivity.
Qed.

End StoreFacts.

(** X13. When a session is valid: it exists, its access token is not
    empty, and its expiry is absent, zero, or still ahead of the clock
    ([now < expiresAt]; at [now = expiresAt] it has expired).  Hence a
    session valid at some time was valid at every earlier time. *)
Theorem isSessionValid_iff (now : Z) (session : option Session) :
  (isSessionValid now session = true
   <-> exists s,
         session = Some s
         /\ ses_accessToken (tokens s) <> EmptyString
         /\ (expiresAt s = None \/ expiresAt s = Some 0
             \/ exists e, expiresAt s = Some e /\ now < e))
  /\ (forall earlier, earlier <= now ->
        isSessionValid now session = true ->
        isSessionValid earlier session = true).
Proof.
  split.
  - unfold isSessionValid. destruct session as [s|].
    2:{ split; [discriminate|]. now intros (s & [=] & _). }
    destruct (ses_accessToken (tokens s)) as [|c tok] eqn:Tok; cbn [JSString.truthy negb].
    { split; [discriminate|]. intros (s' & [= <-] & Hne & _). congruence. }
    destruct (expiresAt s) as [e|] eqn:Ex; cbn [truthyNumber default andb];
      unfold id.
    2:{ split; [|reflexivity]. intros _. exists s. rewrite Tok, Ex. repeat split.
        - discriminate.
        - now left. }
    destruct (Z.eqb_spec e 0) as [->|Hz]; cbn [negb andb].
    { split; [|reflexivity]. intros _. exists s. rewrite Tok, Ex. repeat split.
      - discriminate.
      - right. now left. }
    destruct (Z.geb_spec now e) as [Hge|Hlt]; cbv iota.
    + split; [discriminate|]. intros (s' & [= <-] & _ & [H|[H|(e' & H & Hlt)]]).
      * congruence.
      * congruence.
      * assert (e' = e) by congruence. lia.
    + split; [|reflexivity]. intros _. exists s. rewrite Tok, Ex. repeat split.
      * discriminate.
      * right. right. now exists e.
  - intros earlier Hle. unfold isSessionValid. destruct session as [s|]; [|exact id].
    destruct (negb _); [exact id|].
    destruct (truthyNumber (expiresAt s)); cbn [andb]; [|exact id].
    destruct (Z.geb_spec now (default 0 (expiresAt s))); [discriminate|].
    intros _. destruct (Z.geb_spec earlier (default 0 (expiresAt s))); [lia | reflexivity].
Qed.

Definition sample_stored_session (expiry : option Z) : Session :=
  {| tokens := {| ses_accessToken := "test-access-token";
                  ses_userId := "user-123"; ses_orgId := "org-456" |};
     refreshToken := Some "test-refresh-token";
     expiresAt := expiry;
     email := Some "test@example.com";
     roles := Some ["user"] |}.

(** A codec that knows one document, the sample session that expires at
    time 5000. *)
Definition sample_session_codec : JSON Session :=
  {| JSON_stringify := fun _ => "{accessToken:test-access-token,expiresAt:5000}";
     JSON_parse := fun raw =>
       if String.eqb raw "{accessToken:test-access-token,expiresAt:5000}"
       then Ok (sample_stored_session (Some 5000)) else Throw SyntaxError |}.

Lemma session_save_load_clear_witness :
  exists disk1 disk2,
    saveSession (codec := sample_session_codec) ∅ (sample_stored_session (Some 5000))
      = Ok disk1
    /\ loadSession (codec := sample_session_codec) disk1
       = Ok (Some (sample_stored_session (Some 5000)))
    /\ clearSession disk1 = Ok disk2
    /\ loadSession (codec := sample_session_codec) disk2 = Ok None.
Proof.
  destruct (session_save_load_clear (codec := sample_session_codec) ∅
              (sample_stored_session (Some 5000)) eq_refl)
    as (d1 & d2 & S & L & C & N & _).
  exists d1, d2. auto.
Defined.

Lemma unreadable_session_is_invalid_witness :
  loadSession (codec := sample_session_codec) {[ SESSION_FILE := "not json" ]}
  = Ok None.
Proof.
  apply (unreadable_session_is_invalid (codec := sample_session_codec)
           {[ SESSION_FILE := "not json" ]} 0).
  right. exists "not json", SyntaxError. split; [apply lookup_singleton_eq | reflexivity].
Defined.

End TokenStoreFacts.

(* ===================================================================== *)
(** * More on the audit logger                                            *)
(* ===================================================================== *)

Module AuditLoggerMore.

#[local] Set Warnings "-clear-no-such-hyp".

Import FS JSString JSStringFacts AuditLogger AuditLoggerFacts.

#[local] Instance AuditLevel_eq_dec : EqDecision AuditLevel.
Proof. solve_decision. Defined.

(** The events that wait for an acknowledgement: those in the bodies of
    the POSTs still pending, oldest request first, then the buffer. *)
Definition pending_events (w : World) : list AuditEvent :=
  concat (map req_events (inflight w)) ++ buffer (logger w).

Section LoggerMore.
Context {codec : JSON AuditEvent}.

Lemma level_not_off (this : t) :
  auditLevel this <> off -> AuditLevel_eqb (auditLevel this) off = false.
Proof. destruct (auditLevel this); (reflexivity || congruence). Qed.

Lemma enqueue_at_batch (w : World) (now : Z) (params : AuditLoggerEnqueueParams) :
  auditLevel (logger w) <> off ->
  batchSize (logger w) <= Z.of_nat (length (buffer (logger w))) + 1 ->
  enqueue now params w =
    flush {| logger := set_buffer (buffer (logger w) ++ [stored (logger w) now params])
                                  (logger w);
             disk := disk w;
             inflight := inflight w |}.
Proof.
  intros Hl Hb. unfold enqueue. rewrite (level_not_off _ Hl).
  cbn [buffer set_buffer batchSize logger].
  fold (stored (logger w) now params).
  rewrite length_app, Nat2Z.inj_add. cbn [length].
  destruct (Z.geb_spec (Z.of_nat (length (buffer (logger w))) + Z.of_nat 1)
              (batchSize (logger w))); [reflexivity | lia].
Qed.

Lemma enqueue_off (w : World) (now : Z) (params : AuditLoggerEnqueueParams) :
  auditLevel (logger w) = off -> enqueue now params w = Ok w.
Proof. intros H. unfold enqueue. now rewrite H. Qed.

Lemma snoc_not_nil {A} (l : list A) (x : A) : l ++ [x] <> [].
Proof. now destruct l. Qed.

(** One [enqueue] with a control plane configured. *)
Lemma enqueue_endpoint (w : World) (now : Z) (params : AuditLoggerEnqueueParams) :
  controlPlaneUrl (logger w) <> EmptyString ->
  exists (b : list AuditEvent) (infl : list Request),
    enqueue now params w =
      Ok {| logger := set_buffer b (logger w); disk := disk w; inflight := infl |}
    /\ concat (map req_events infl) ++ b
       = pending_events w ++ enqueued (logger w) [(now, params)]
    /\ (Z.of_nat (length (buffer (logger w))) < batchSize (logger w) ->
        Z.of_nat (length b) < batchSize (logger w)).
Proof.
  intros Hu. unfold pending_events, enqueued.
  destruct (decide (auditLevel (logger w) = off)) as [Hoff|Hon].
  { rewrite (enqueue_off _ _ _ Hoff), Hoff. cbn [AuditLevel_eqb].
    exists (buffer (logger w)), (inflight w). rewrite set_buffer_same, app_nil_r.
    split; [now destruct w|]. split; [reflexivity | exact id]. }
  rewrite (level_not_off _ Hon). cbn [map fst snd].
  destruct (Z_lt_le_dec (Z.of_nat (length (buffer (logger w))) + 1)
              (batchSize (logger w))) as [Hlt|Hge].
  - rewrite (enqueue_below_batch _ _ _ Hon Hlt).
    eexists. eexists. split; [reflexivity|]. split.
    + now rewrite app_assoc.
    + intros _. rewrite length_app, Nat2Z.inj_add. cbn [length]. lia.
  - rewrite (enqueue_at_batch _ _ _ Hon Hge).
    rewrite flush_endpoint; [| apply snoc_not_nil | exact Hu].
    cbn [logger buffer set_buffer disk inflight].
    eexists. eexists. split; [reflexivity|]. split.
    + unfold request_of. cbn [buffer set_buffer].
      rewrite map_app, concat_app. cbn [map concat req_events].
      now rewrite !app_nil_r, app_assoc.
    + cbn [length]. lia.
Qed.

Lemma enqueued_cons (this : t) (c : Z * AuditLoggerEnqueueParams)
    (calls : list (Z * AuditLoggerEnqueueParams)) :
  enqueued this (c :: calls) = enqueued this [c] ++ enqueued this calls.
Proof. unfold enqueued. now destruct (AuditLevel_eqb _ _). Qed.

Lemma enqueue_all_endpoint (calls : list (Z * AuditLoggerEnqueueParams)) :
  forall w : World,
    controlPlaneUrl (logger w) <> EmptyString ->
    exists (b : list AuditEvent) (infl : list Request),
      enqueue_all calls w =
        Ok {| logger := set_buffer b (logger w); disk := disk w; inflight := infl |}
      /\ concat (map req_events infl) ++ b
         = pending_events w ++ enqueued (logger w) calls
      /\ (Z.of_nat (length (buffer (logger w))) < batchSize (logger w) ->
          Z.of_nat (length b) < batchSize (logger w)).
Proof.
  induction calls as [|[now params] rest IH]; intros w Hu.
  - exists (buffer (logger w)), (inflight w). rewrite set_buffer_same.
    split; [now destruct w|]. split; [|exact id].
    unfold pending_events, enqueued. destruct (AuditLevel_eqb _ _);
      now rewrite app_nil_r.
  - destruct (enqueue_endpoint w now params Hu) as (b1 & i1 & E1 & P1 & B1).
    cbn [enqueue_all]. rewrite E1. cbn [rbind].
    destruct (IH {| logger := set_buffer b1 (logger w); disk := disk w;
                    inflight := i1 |} Hu) as (b & i & E & P & B).
    exists b, i. split; [exact E|].
    unfold pending_events in P. cbn [logger buffer set_buffer inflight] in P, B.
    change (enqueued (set_buffer b1 (logger w)) rest)
      with (enqueued (logger w) rest) in P.
    split.
    + rewrite P, P1, (enqueued_cons _ (now, params) rest). now rewrite app_assoc.
    + intros H. apply B, B1, H.
Qed.

(** At audit level [off] the logger records nothing: whatever is
    enqueued, buffer, disk and pending requests stay as they were. *)
Lemma enqueue_at_off_records_nothing
    (calls : list (Z * AuditLoggerEnqueueParams)) (w : World) :
  auditLevel (logger w) = off ->
  enqueue_all calls w = Ok w.
Proof.
  intros Hoff. induction calls as [|[now params] rest IH]; [reflexivity|].
  cbn [enqueue_all]. rewrite (enqueue_off _ _ _ Hoff). exact IH.
Qed.

(** X14. With a control plane configured, [enqueue] never writes the
    disk and never loses or reorders an event: after any run of calls
    the events awaiting acknowledgement are the earlier ones followed by
    the newly stored ones, in call order, and a buffer that was below
    the batch size is below it again. *)
Theorem enqueue_keeps_every_event
    (calls : list (Z * AuditLoggerEnqueueParams)) (w : World) :
  controlPlaneUrl (logger w) <> EmptyString ->
  exists w',
    enqueue_all calls w = Ok w'
    /\ pending_events w' = pending_events w ++ enqueued (logger w) calls
    /\ disk w' = disk w
    /\ (Z.of_nat (length (buffer (logger w))) < batchSize (logger w) ->
        Z.of_nat (length (buffer (logger w'))) < batchSize (logger w')).
Proof.
  intros Hu.
  destruct (enqueue_all_endpoint calls w Hu) as (b & i & E & P & B).
  eexists. split; [exact E|]. split; [exact P|]. split; [reflexivity|]. exact B.
Qed.

(** X15. An [enqueue] that brings the buffer to the batch size starts
    a flush within the call: the buffer is left empty and all buffered
    events, the new one last, go into one POST, or into the snapshot
    file when no control plane is configured. *)
Theorem enqueue_at_batch_size_flushes
    (w : World) (now : Z) (params : AuditLoggerEnqueueParams) :
  auditLevel (logger w) <> off ->
  batchSize (logger w) <= Z.of_nat (length (buffer (logger w))) + 1 ->
  exists w',
    enqueue now params w = Ok w'
    /\ buffer (logger w') = []
    /\ (controlPlaneUrl (logger w) <> EmptyString ->
        disk w' = disk w
        /\ exists request : Request,
             inflight w' = inflight w ++ [request]
             /\ req_events request
                = buffer (logger w) ++ [stored (logger w) now params])
    /\ (controlPlaneUrl (logger w) = EmptyString ->
        inflight w' = inflight w
        /\ disk w' !! BUFFER_FILE
           = Some (snapshot (buffer (logger w) ++ [stored (logger w) now params]))).
Proof.
  intros Hl Hb. rewrite (enqueue_at_batch _ _ _ Hl Hb).
  destruct (decide (controlPlaneUrl (logger w) = EmptyString)) as [Hu|Hu].
  - rewrite flush_no_endpoint; [| apply snoc_not_nil | exact Hu].
    eexists. split; [reflexivity|]. split; [reflexivity|].
    split; [congruence|]. intros _. split; [reflexivity|]. apply lookup_insert_eq.
  - rewrite flush_endpoint; [| apply snoc_not_nil | exact Hu].
    eexists. split; [reflexivity|]. split; [reflexivity|].
    split; [|congruence]. intros _. split; [reflexivity|].
    eexists. split; reflexivity.
Qed.

(** X16. At audit level [full] the metadata of a call is stored with
    its event, and it is transmitted with it even if the level is lowered
    to [metadata] before the flush: the level in force at [enqueue]
    decides what leaves the device. *)
Theorem metadata_kept_once_enqueued
    (w : World) (now : Z) (params : AuditLoggerEnqueueParams) :
  auditLevel (logger w) = full ->
  controlPlaneUrl (logger w) <> EmptyString ->
  Z.of_nat (length (buffer (logger w))) + 1 < batchSize (logger w) ->
  exists w1 w2 (e : AuditEvent) (request : Request),
    enqueue now params w = Ok w1
    /\ buffer (logger w1) = buffer (logger w) ++ [e]
    /\ ev_metadata e = p_metadata params
    /\ flush (with_logger (updateAuditLevel metadata) w1) = Ok w2
    /\ inflight w2 = inflight w ++ [request]
    /\ req_events request = buffer (logger w) ++ [e].
Proof.
  intros Hl Hu Hb.
  rewrite enqueue_below_batch; [| congruence | exact Hb].
  eexists. eexists. exists (stored (logger w) now params). eexists.
  split; [reflexivity|]. split; [reflexivity|].
  split; [unfold stored; now rewrite Hl|].
  rewrite flush_endpoint; [| apply snoc_not_nil | exact Hu].
  split; [reflexivity|]. split; reflexivity.
Qed.

(** ** Settling a POST *)

Lemma settle_failed (w : World) (i : nat) (request : Request)
    (outcome : FetchOutcome) :
  inflight w !! i = Some request ->
  failed outcome = true ->
  settle i outcome w =
    Ok {| logger := set_buffer (req_events request ++ buffer (logger w)) (logger w);
          disk := <[BUFFER_FILE := snapshot (req_events request ++ buffer (logger w))]>
                    (disk w);
          inflight := delete i (inflight w) |}.
Proof.
  intros Hi Hf. unfold settle. rewrite Hi. unfold flush_settled.
  destruct outcome as [err|status]; cbn [failed] in Hf.
  - rewrite persistBuffer_writes. reflexivity.
  - rewrite Hf, persistBuffer_writes. reflexivity.
Qed.

Lemma settle_succeeded (w : World) (i : nat) (request : Request)
    (outcome : FetchOutcome) :
  inflight w !! i = Some request ->
  failed outcome = false ->
  settle i outcome w =
    Ok {| logger := logger w;
          disk := delete BUFFER_FILE (disk w);
          inflight := delete i (inflight w) |}.
Proof.
  intros Hi Hf. unfold settle. rewrite Hi. unfold flush_settled.
  destruct outcome as [err|status]; cbn [failed] in Hf; [discriminate|].
  rewrite Hf, clearPersistedBuffer_deletes. reflexivity.
Qed.

Lemma inflight_split (infl : list Request) (i : nat) (request : Request) :
  infl !! i = Some request ->
  concat (map req_events infl)
  = concat (map req_events (take i infl)) ++ req_events request
    ++ concat (map req_events (drop (S i) infl))
  /\ concat (map req_events (delete i infl))
     = concat (map req_events (take i infl))
       ++ concat (map req_events (drop (S i) infl)).
Proof.
  intros Hi. split.
  - rewrite <- (take_drop_middle infl i request Hi) at 1.
    rewrite map_app, concat_app. reflexivity.
  - rewrite delete_take_drop, map_app, concat_app. reflexivity.
Qed.

(** X17. Settling a POST accounts for every event.  After a failure
    the events awaiting acknowledgement are the same ones as before (the
    batch has moved from its request to the front of the buffer); after a
    success exactly the events of the acknowledged request have left. *)
Theorem settle_accounts_for_every_event
    (w : World) (i : nat) (request : Request) (outcome : FetchOutcome) :
  inflight w !! i = Some request ->
  exists w',
    settle i outcome w = Ok w'
    /\ (failed outcome = true -> pending_events w' ≡ₚ pending_events w)
    /\ (failed outcome = false ->
        pending_events w ≡ₚ req_events request ++ pending_events w').
Proof.
  intros Hi. destruct (inflight_split _ _ _ Hi) as [E1 E2].
  destruct (failed outcome) eqn:Hf.
  - rewrite (settle_failed _ _ _ _ Hi Hf). eexists. split; [reflexivity|].
    split; [|discriminate]. intros _. unfold pending_events.
    cbn [logger buffer set_buffer inflight]. rewrite E1, E2, <- !app_assoc.
    apply Permutation_app_head. apply Permutation_app_swap_app.
  - rewrite (settle_succeeded _ _ _ _ Hi Hf). eexists. split; [reflexivity|].
    split; [discriminate|]. intros _. unfold pending_events.
    cbn [logger inflight]. rewrite E1, E2, <- !app_assoc.
    apply Permutation_app_swap_app.
Qed.

(** X18. A failed batch is retried first: after a POST has failed, the
    next flush issues one request whose body is the failed batch, in its
    order, followed by the events buffered since. *)
Theorem failed_batch_is_retried_first
    (w : World) (i : nat) (request : Request) (outcome : FetchOutcome) :
  inflight w !! i = Some request ->
  failed outcome = true ->
  req_events request <> [] ->
  controlPlaneUrl (logger w) <> EmptyString ->
  exists w1 w2 (retry : Request),
    settle i outcome w = Ok w1
    /\ flush w1 = Ok w2
    /\ inflight w2 = delete i (inflight w) ++ [retry]
    /\ req_events retry = req_events request ++ buffer (logger w)
    /\ buffer (logger w2) = [].
Proof.
  intros Hi Hf Hne Hu. rewrite (settle_failed _ _ _ _ Hi Hf).
  eexists. eexists. eexists. split; [reflexivity|].
  rewrite flush_endpoint.
  - split; [reflexivity|]. split; [reflexivity|]. split; reflexivity.
  - cbn [logger buffer set_buffer]. destruct (req_events request); [congruence | discriminate].
  - exact Hu.
Qed.

(** X19. Nothing unacknowledged is lost to a crash after a failed
    POST: a logger constructed from the disk left by the failure has in
    its buffer the failed batch followed by the events that were buffered
    at that time. *)
Theorem restart_after_failed_flush
    (w : World) (i : nat) (request : Request) (outcome : FetchOutcome)
    (config : ClawGuardPluginConfig) (session : SessionTokens)
    (level : option AuditLevel) :
  inflight w !! i = Some request ->
  failed outcome = true ->
  Forall survives (req_events request ++ buffer (logger w)) ->
  exists w1 this,
    settle i outcome w = Ok w1
    /\ new config session level (disk w1) = Ok this
    /\ buffer this = req_events request ++ buffer (logger w).
Proof.
  intros Hi Hf Hs. rewrite (settle_failed _ _ _ _ Hi Hf).
  eexists. eexists. split; [reflexivity|]. cbn [disk]. split.
  - unfold new. apply reload_after_persist. exact Hs.
  - reflexivity.
Qed.

(** X20. An acknowledged POST removes the snapshot file whatever the
    buffer holds at that time: events still buffered then, such as a
    batch put back by an earlier failure, are in memory only, and a
    logger constructed from that disk starts with an empty buffer. *)
Theorem success_clears_snapshot_unconditionally
    (w : World) (i : nat) (request : Request) (outcome : FetchOutcome)
    (config : ClawGuardPluginConfig) (session : SessionTokens)
    (level : option AuditLevel) :
  inflight w !! i = Some request ->
  failed outcome = false ->
  exists w1 this,
    settle i outcome w = Ok w1
    /\ buffer (logger w1) = buffer (logger w)
    /\ disk w1 !! BUFFER_FILE = None
    /\ new config session level (disk w1) = Ok this
    /\ buffer this = [].
Proof.
  intros Hi Hf. rewrite (settle_succeeded _ _ _ _ Hi Hf).
  eexists. eexists. split; [reflexivity|]. split; [reflexivity|].
  cbn [disk]. split; [apply lookup_delete_eq|].
  unfold new, loadPersistedBuffer, readFileSync. rewrite lookup_delete_eq.
  split; reflexivity.
Qed.

(** X21. [flush] and [stop] always leave the buffer empty, and [stop]
    leaves the timer cleared.  With a control plane they write nothing to
    the disk and the events awaiting acknowledgement are unchanged;
    without one, a non-empty buffer becomes the content of the snapshot
    file. *)
Theorem flush_and_stop_empty_the_buffer (w : World) :
  exists w1 w2,
    flush w = Ok w1
    /\ stop w = Ok w2
    /\ buffer (logger w1) = [] /\ buffer (logger w2) = []
    /\ flushTimer (logger w2) = false
    /\ (controlPlaneUrl (logger w) <> EmptyString ->
        pending_events w1 = pending_events w /\ disk w1 = disk w
        /\ pending_events w2 = pending_events w /\ disk w2 = disk w)
    /\ (controlPlaneUrl (logger w) = EmptyString ->
        buffer (logger w) <> [] ->
        disk w1 !! BUFFER_FILE = Some (snapshot (buffer (logger w)))
        /\ disk w2 !! BUFFER_FILE = Some (snapshot (buffer (logger w)))).
Proof.
  unfold stop.
  assert (Hb : buffer (logger w) = [] \/ buffer (logger w) <> []).
  { destruct (buffer (logger w)); [now left | now right]. }
  destruct Hb as [Hb|Hb].
  - rewrite !flush_nothing by exact Hb.
    eexists. eexists. split; [reflexivity|]. split; [reflexivity|].
    split; [exact Hb|]. split; [exact Hb|]. split; [reflexivity|].
    split; [|congruence]. intros _. repeat split.
  - destruct (decide (controlPlaneUrl (logger w) = EmptyString)) as [Hu|Hu].
    + rewrite (flush_no_endpoint w Hb Hu).
      rewrite (flush_no_endpoint (with_logger (set_flushTimer false) w) Hb Hu).
      eexists. eexists. split; [reflexivity|]. split; [reflexivity|].
      split; [reflexivity|]. split; [reflexivity|]. split; [reflexivity|].
      split; [congruence|]. intros _ _. split; apply lookup_insert_eq.
    + rewrite (flush_endpoint w Hb Hu).
      rewrite (flush_endpoint (with_logger (set_flushTimer false) w) Hb Hu).
      eexists. eexists. split; [reflexivity|]. split; [reflexivity|].
      split; [reflexivity|]. split; [reflexivity|]. split; [reflexivity|].
      split; [|congruence]. intros _.
      assert (P : forall infl (this : t),
                 concat (map req_events (infl ++ [request_of this])) ++ []
                 = concat (map req_events infl) ++ buffer this).
      { intros infl this. rewrite map_app, concat_app. cbn [map concat].
        now rewrite !app_nil_r. }
      unfold pending_events.
      cbn [logger buffer set_buffer inflight disk with_logger].
      rewrite !P. repeat split.
Qed.

End LoggerMore.

(** ** Sample runs *)

Definition sample_logger_at (level : AuditLevel) (url : string)
    (events : list AuditEvent) : t :=
  {| buffer := events; flushTimer := false; batchSize := 5;
     flushIntervalMs := 60000; controlPlaneUrl := url;
     orgId := "org-123"; userId := "user-1"; accessToken := "test-token";
     auditLevel := level |}.

Definition sample_world (level : AuditLevel) (url : string)
    (events : list AuditEvent) (pending : list Request) : World :=
  {| logger := sample_logger_at level url events; disk := ∅; inflight := pending |}.

Definition sample_request : Request :=
  request_of (sample_logger_at metadata sample_url [sample_event_1]).

Lemma sample_events_survive :
  Forall (survives (codec := sample_codec)) [sample_event_1; sample_event_2].
Proof. repeat constructor. Qed.

Lemma enqueue_at_off_records_nothing_witness :
  enqueue_all (codec := sample_codec) [(2000, sample_params); (3000, sample_params)]
    (sample_world off sample_url [] [])
  = Ok (sample_world off sample_url [] []).
Proof.
  apply (enqueue_at_off_records_nothing (codec := sample_codec)
           [(2000, sample_params); (3000, sample_params)]
           (sample_world off sample_url [] [])).
  reflexivity.
Defined.

Lemma enqueue_keeps_every_event_witness :
  exists w',
    enqueue_all (codec := sample_codec) [(2000, sample_params)]
      (sample_world metadata sample_url [sample_event_1] []) = Ok w'
    /\ pending_events w' = [sample_event_1; sample_event_2]
    /\ disk w' = ∅.
Proof.
  destruct (enqueue_keeps_every_event (codec := sample_codec)
              [(2000, sample_params)]
              (sample_world metadata sample_url [sample_event_1] []))
    as (w' & E & P & D & _); [discriminate|].
  exists w'. split; [exact E|]. split; [rewrite P; reflexivity | exact D].
Defined.

Lemma enqueue_at_batch_size_flushes_witness :
  exists w',
    enqueue (codec := sample_codec) 2000 sample_params
      (sample_world metadata sample_url
         [sample_event_1; sample_event_1; sample_event_1; sample_event_1] [])
    = Ok w'
    /\ buffer (logger w') = []
    /\ length (inflight w') = 1%nat.
Proof.
  destruct (enqueue_at_batch_size_flushes (codec := sample_codec)
              (sample_world metadata sample_url
                 [sample_event_1; sample_event_1; sample_event_1; sample_event_1] [])
              2000 sample_params)
    as (w' & E & B & U & _); [discriminate | cbn; lia |].
  exists w'. split; [exact E|]. split; [exact B|].
  destruct U as (_ & request & I & _); [discriminate|]. now rewrite I.
Defined.

Lemma metadata_kept_once_enqueued_witness :
  exists w1 w2,
    enqueue (codec := sample_codec) 2000 sample_params
      (sample_world full sample_url [] []) = Ok w1
    /\ flush (codec := sample_codec) (with_logger (updateAuditLevel metadata) w1)
       = Ok w2
    /\ transmitted_metadata (Ok w2) = [[p_metadata sample_params]].
Proof.
  destruct (metadata_kept_once_enqueued (codec := sample_codec)
              (sample_world full sample_url [] []) 2000 sample_params eq_refl)
    as (w1 & w2 & e & request & E & _ & M & F & I & R);
    [discriminate | reflexivity |].
  exists w1, w2. split; [exact E|]. split; [exact F|].
  cbn [transmitted_metadata]. rewrite I. cbn [sample_world inflight app map].
  rewrite R. cbn [sample_world logger sample_logger_at buffer app map].
  now rewrite M.
Defined.

Lemma settle_accounts_for_every_event_witness :
  exists w',
    settle (codec := sample_codec) 0 (Responded 500)
      (sample_world metadata sample_url [sample_event_2] [sample_request]) = Ok w'
    /\ pending_events w' = [sample_event_1; sample_event_2].
Proof.
  destruct (settle_accounts_for_every_event (codec := sample_codec)
              (sample_world metadata sample_url [sample_event_2] [sample_request])
              0%nat sample_request (Responded 500) eq_refl)
    as (w' & E & _ & _).
  exists w'. split; [exact E|].
  vm_compute in E. injection E as <-. reflexivity.
Defined.

Lemma failed_batch_is_retried_first_witness :
  exists w1 w2 retry,
    settle (codec := sample_codec) 0 (Responded 500)
      (sample_world metadata sample_url [sample_event_2] [sample_request]) = Ok w1
    /\ flush (codec := sample_codec) w1 = Ok w2
    /\ inflight w2 = [retry]
    /\ req_events retry = [sample_event_1; sample_event_2].
Proof.
  destruct (failed_batch_is_retried_first (codec := sample_codec)
              (sample_world metadata sample_url [sample_event_2] [sample_request])
              0%nat sample_request (Responded 500) eq_refl eq_refl)
    as (w1 & w2 & retry & S & F & I & R & _); [discriminate | discriminate |].
  exists w1, w2, retry. auto.
Defined.

Lemma restart_after_failed_flush_witness :
  exists w1 this,
    settle (codec := sample_codec) 0 (Rejected (NetworkError "fetch failed"))
      (sample_world metadata sample_url [sample_event_2] [sample_request]) = Ok w1
    /\ new (codec := sample_codec) (sample_config (Some sample_url)) sample_session
         (Some metadata) (disk w1) = Ok this
    /\ buffer this = [sample_event_1; sample_event_2].
Proof.
  destruct (restart_after_failed_flush (codec := sample_codec)
              (sample_world metadata sample_url [sample_event_2] [sample_request])
              0%nat sample_request (Rejected (NetworkError "fetch failed"))
              (sample_config (Some sample_url)) sample_session (Some metadata)
              eq_refl eq_refl sample_events_survive)
    as (w1 & this & S & N & B).
  exists w1, this. auto.
Defined.

Lemma success_clears_snapshot_unconditionally_witness :
  exists w1 this,
    settle (codec := sample_codec) 0 (Responded 204)
      {| logger := sample_logger_at metadata sample_url [sample_event_2];
         disk := {[ BUFFER_FILE := snapshot (codec := sample_codec) [sample_event_2] ]};
         inflight := [sample_request] |} = Ok w1
    /\ buffer (logger w1) = [sample_event_2]
    /\ new (codec := sample_codec) (sample_config (Some sample_url)) sample_session
         (Some metadata) (disk w1) = Ok this
    /\ buffer this = [].
Proof.
  destruct (success_clears_snapshot_unconditionally (codec := sample_codec)
              {| logger := sample_logger_at metadata sample_url [sample_event_2];
                 disk := {[ BUFFER_FILE :=
                              snapshot (codec := sample_codec) [sample_event_2] ]};
                 inflight := [sample_request] |}
              0%nat sample_request (Responded 204)
              (sample_config (Some sample_url)) sample_session (Some metadata)
              eq_refl eq_refl)
    as (w1 & this & S & B & _ & N & E).
  exists w1, this. auto.
Defined.

End AuditLoggerMore.

(* ===================================================================== *)
(** * More on the kill-switch heartbeat                                   *)
(* ===================================================================== *)

Module KillSwitchMore.

#[local] Set Warnings "-unused-intro-pattern".

Import ToolEnforcer ToolEnforcerFacts KillSwitchManager KillSwitchFacts.

(** The heartbeat cases, one goal each. *)
Ltac heartbeat_cases outcome w :=
  unfold heartbeat_settled, handleFailure;
  destruct w as [m st es];
  destruct outcome as [err|status [[[pv ks msg rf]|]|err]];
  cbn [mgr enforcerState effects];
  try destruct (ok status); cbn [negb];
  cbn [killSwitch killSwitchMessage refreshPolicyNow];
  try destruct ks; try destruct (killSwitchActive st) eqn:Hact;
  try destruct rf;
  cbn;
  try (destruct (onPolicyRefreshNeeded m) as [cb|] eqn:Hcb; cbn;
       rewrite ?Hcb; try destruct (cb tt); cbn).

(** X22. Whatever the outcome of a heartbeat, it does not touch the
    policy of the shared enforcement state, it changes no field of the
    manager other than the failure counter, and it only adds to the
    effects it has had so far. *)
Theorem heartbeat_frame (outcome : FetchOutcome) (w : World) :
  policy (enforcerState (heartbeat_settled outcome w)) = policy (enforcerState w)
  /\ set_consecutiveFailures (consecutiveFailures (mgr w))
       (mgr (heartbeat_settled outcome w)) = mgr w
  /\ effects w `prefix_of` effects (heartbeat_settled outcome w).
Proof.
  heartbeat_cases outcome w;
    repeat match goal with
           | |- context [if ?c then _ else _] => destruct c; cbn
           end;
    (split; [reflexivity|]); (split; [now destruct m|]);
    rewrite <- ?app_assoc; first [reflexivity | apply prefix_app_r; reflexivity].
Qed.

(** X23. The failure counter never goes below zero and never grows by
    more than one per heartbeat; and a heartbeat logs the escalation only
    when the counter it leaves has reached the threshold. *)
Theorem counter_bounds_and_escalation (outcome : FetchOutcome) (w : World) :
  0 <= consecutiveFailures (mgr w) ->
  0 <= consecutiveFailures (mgr (heartbeat_settled outcome w))
       <= consecutiveFailures (mgr w) + 1
  /\ exists new : list Effect,
       effects (heartbeat_settled outcome w) = effects w ++ new
       /\ (escalation (mgr w) ∈ new ->
           failureThreshold (mgr w)
             <= consecutiveFailures (mgr (heartbeat_settled outcome w))).
Proof.
  intros Hc. unfold escalation.
  heartbeat_cases outcome w; cbn in Hc;
    repeat match goal with
           | |- context [if ?a >=? ?b then _ else _] =>
               destruct (Z.geb_spec a b); cbn
           end;
    (split; [lia|]);
    (first [ exists []; split; [now rewrite app_nil_r|]
           | eexists; split; [rewrite <- ?app_assoc; reflexivity|] ]);
    cbn [app]; rewrite ?elem_of_cons, ?elem_of_nil;
    intros Hin; repeat (destruct Hin as [Hin|Hin]);
    try discriminate Hin; try exact Hin; try lia.
Qed.

Lemma counter_bounds_and_escalation_witness :
  0 <= consecutiveFailures
         (mgr (heartbeat_settled (Responded 503 (Throw SyntaxError))
                 (KillSwitchFacts.sample_world None 2 false None)))
    <= 3.
Proof.
  destruct (counter_bounds_and_escalation (Responded 503 (Throw SyntaxError))
              (KillSwitchFacts.sample_world None 2 false None))
    as [B _]; [cbn; lia|].
  exact B.
Defined.

(** X24. Polling is idempotent: a 2xx response that asks for no
    refresh, taken twice in a row, leaves the world after the second as
    after the first; the kill-switch transition is logged by the first
    only. *)
Theorem repeated_response_changes_nothing
    (status : Z) (data : HeartbeatResponse) (w : World) :
  ok status = true ->
  refreshPolicyNow data = false ->
  heartbeat_settled (Responded status (Ok (Some data)))
    (heartbeat_settled (Responded status (Ok (Some data))) w)
  = heartbeat_settled (Responded status (Ok (Some data))) w.
Proof.
  intros Hok Hrf. unfold heartbeat_settled. rewrite Hok. cbn [negb].
  destruct w as [m st es], data as [pv ks msg rf].
  cbn [refreshPolicyNow] in Hrf. subst rf.
  cbn [killSwitch killSwitchMessage refreshPolicyNow mgr enforcerState effects].
  destruct ks, (killSwitchActive st); reflexivity.
Qed.

Lemma repeated_response_changes_nothing_witness :
  effects
    (heartbeat_settled
       (Responded 200 (Ok (Some {| policyVersion := 1; killSwitch := true;
                                   killSwitchMessage := Some "Shutdown now";
                                   refreshPolicyNow := false |})))
       (heartbeat_settled
          (Responded 200 (Ok (Some {| policyVersion := 1; killSwitch := true;
                                      killSwitchMessage := Some "Shutdown now";
                                      refreshPolicyNow := false |})))
          (KillSwitchFacts.sample_world None 0 false None)))
  = [Log warn (Kill_switch_activated "Shutdown now")].
Proof.
  rewrite (repeated_response_changes_nothing 200
             {| policyVersion := 1; killSwitch := true;
                killSwitchMessage := Some "Shutdown now";
                refreshPolicyNow := false |}
             (KillSwitchFacts.sample_world None 0 false None) eq_refl eq_refl).
  reflexivity.
Defined.

(** X25. The heartbeat reaches the enforcer through the shared state:
    after a 2xx response with [killSwitch = true] the hook blocks every
    tool call with the message of the response (or the default text);
    after one with [killSwitch = false] the hook decides as the policy
    alone says, and allows every call when no policy is loaded. *)
Theorem heartbeat_drives_the_enforcer
    (status : Z) (data : HeartbeatResponse) (w : World)
    (event : BeforeToolCallEvent) (ctx : ToolContext) :
  ok status = true ->
  (killSwitch data = true ->
     fst (createToolEnforcerHook
            (enforcerState (heartbeat_settled (Responded status (Ok (Some data))) w))
            event ctx)
     = Some {| block := true;
               blockReason := default DEFAULT_KILL_MESSAGE (killSwitchMessage data) |})
  /\ (killSwitch data = false ->
      createToolEnforcerHook
        (enforcerState (heartbeat_settled (Responded status (Ok (Some data))) w))
        event ctx
      = createToolEnforcerHook
          {| policy := policy (enforcerState w); killSwitchActive := false;
             killSwitchMessage_ := None |} event ctx
      /\ (policy (enforcerState w) = None ->
          blocks (createToolEnforcerHook
                    (enforcerState
                       (heartbeat_settled (Responded status (Ok (Some data))) w))
                    event ctx) = false)).
Proof.
  intros Hok.
  assert (S : enforcerState (heartbeat_settled (Responded status (Ok (Some data))) w)
              = {| policy := policy (enforcerState w);
                   killSwitchActive := killSwitch data;
                   killSwitchMessage_ := if killSwitch data
                                         then killSwitchMessage data else None |}).
  { unfold heartbeat_settled, handleFailure. rewrite Hok. cbn [negb].
    destruct w as [m st es], data as [pv ks msg rf].
    cbn [killSwitch killSwitchMessage refreshPolicyNow mgr enforcerState effects].
    destruct ks, (killSwitchActive st), rf; cbn;
      try (destruct (onPolicyRefreshNeeded m) as [cb|]; cbn;
           try destruct (cb tt); cbn);
      repeat match goal with
             | |- context [if ?c then _ else _] => destruct c; cbn
             end; reflexivity. }
  rewrite S. split.
  - intros ->. reflexivity.
  - intros ->. split; [reflexivity|]. intros Hp.
    unfold createToolEnforcerHook, blocks. cbn. now rewrite Hp.
Qed.

Lemma heartbeat_drives_the_enforcer_witness :
  fst (createToolEnforcerHook
         (enforcerState
            (heartbeat_settled
               (Responded 200
                  (Ok (Some {| policyVersion := 1; killSwitch := true;
                               killSwitchMessage := Some "Shutdown now";
                               refreshPolicyNow := false |})))
               (KillSwitchFacts.sample_world None 0 false None)))
         {| toolName := "read" |} sample_ctx)
  = Some {| block := true; blockReason := "Shutdown now" |}.
Proof.
  destruct (heartbeat_drives_the_enforcer 200
              {| policyVersion := 1; killSwitch := true;
                 killSwitchMessage := Some "Shutdown now";
                 refreshPolicyNow := false |}
              (KillSwitchFacts.sample_world None 0 false None)
              {| toolName := "read" |} sample_ctx eq_refl) as [On _].
  apply On. reflexivity.
Defined.

End KillSwitchMore.

(* ===================================================================== *)
(** * index.ts: policy resolution and wiring in [initializeClawGuard]     *)
(* ===================================================================== *)

From Stdlib Require DecimalString.

Module Initialize.

Import FS OrgPolicyCache ToolEnforcer.

(** [`${n}`] for an integer. *)
Definition decimal (n : Z) : string :=
  DecimalString.NilZero.string_of_int (Z.to_int n).

(** policy/org-policy-client.ts, [fetchEffectivePolicy]: how its [fetch]
    settles.  A response has a status, a body text ([response.text()])
    and a parsed body ([response.json()]), each of which may reject. *)
Inductive PolicyFetch : Type :=
| FetchRejected (err : JSError)
| FetchResponded (status : Z) (text : result string) (json : result OrgPolicy).

(** [fetchEffectivePolicy(...)] from the point where its [fetch]
    settles. *)
Definition fetchEffectivePolicy (outcome : PolicyFetch) : result OrgPolicy :=
  match outcome with
  | FetchRejected err => Throw err
  | FetchResponded status text json =>
      if negb (AuditLogger.ok status) then
        do! text <- text;
        Throw (UserError ("Failed to fetch org policy (" +:+ decimal status
                          +:+ "): " +:+ text))
      else json
  end.

(** Whether a fetch yields a policy. *)
Definition fetched (outcome : PolicyFetch) : option OrgPolicy :=
  match fetchEffectivePolicy outcome with
  | Ok p => Some p
  | Throw _ => None
  end.

(** [pluginConfig.controlPlaneUrl] as a condition. *)
Definition hasControlPlane (config : ClawGuardPluginConfig) : bool :=
  match cfg_controlPlaneUrl config with
  | Some url => JSString.truthy url
  | None => false
  end.

(** Where step 2 of [initializeClawGuard] stands after its synchronous
    part: the policy is settled (with or without a refresh started in
    the background), or the fetch is awaited. *)
Inductive PolicyStep : Type :=
| Resolved (policy : option OrgPolicy) (backgroundRefresh : bool)
| Fetching.

(** The disk as step 2 and a refresh have it: the files, and whether a
    write goes through.  On a disk that takes no write, [mkdirSync] and
    [writeFileSync] throw. *)
Record Storage : Type := {
  files : Disk;
  writable : bool
}.

Section Resolve.
Context {codec : JSON CachedPolicy}.

(** [saveCachedPolicy(policy, ttlMs)] on a disk that may refuse the
    write. *)
Definition saveCachedPolicy_on (storage : Storage) (now : Z) (policy : OrgPolicy)
    (ttlMs_ : option Z) : result Storage :=
  if writable storage then
    do! files' <- saveCachedPolicy (files storage) now policy ttlMs_;
    Ok {| files := files'; writable := writable storage |}
  else Throw EACCES.

(** Step 2, "Fetch policy", up to its [await]. *)
Definition resolve_policy_start (config : ClawGuardPluginConfig) (disk : Disk)
    (now : Z) : result PolicyStep :=
  let cacheTtl := cfg_policyCacheTtlMs config in
  (* Try cache first. *)
  do! policy <- loadCachedPolicy disk now cacheTtl;
  match policy with
  | None =>
      if hasControlPlane config then Ok Fetching
      else Ok (Resolved None false)
  | Some p =>
      (* Cache hit; async refresh in background. *)
      Ok (Resolved (Some p) (hasControlPlane config))
  end.

(** Step 2 from the point where the awaited fetch settles.  The save is
    inside the [try]: when it throws, the fetched policy is dropped for
    what the handler finds in the cache. *)
Definition resolve_policy_settled (config : ClawGuardPluginConfig)
    (outcome : PolicyFetch) (storage : Storage) (now : Z)
  : result (option OrgPolicy * Storage) :=
  let cacheTtl := cfg_policyCacheTtlMs config in
  try_catch
    (do! policy <- fetchEffectivePolicy outcome;
     do! storage' <- saveCachedPolicy_on storage now policy cacheTtl;
     Ok (Some policy, storage'))
    (fun _ =>
       (* Fall back to expired cache. *)
       do! policy <- loadCachedPolicyFallback (files storage);
       Ok (policy, storage)).

(** Step 4, "Set up enforcer state". *)
Definition initial_enforcer_state (policy : option OrgPolicy) : ToolEnforcerState :=
  {| ToolEnforcer.policy := policy;
     killSwitchActive := match policy with
                         | Some p => killSwitch_active p
                         | None => false
                         end;
     killSwitchMessage_ := match policy with
                           | Some p => killSwitch_message p
                           | None => None
                           end |}.

(** What a refresh holds: the shared enforcement state, the audit logger
    and the disk. *)
Record Plugin : Type := {
  enforcerState : ToolEnforcerState;
  auditLogger : AuditLogger.t;
  storage : Storage
}.

(** The body of [refreshPolicy] (and of the background refresh) from the
    point where its fetch settles: save the fresh policy, put it in the
    enforcement state, pass its audit level to the logger; on any error,
    that of the save included, only a warning. *)
Definition refresh_settled (config : ClawGuardPluginConfig) (outcome : PolicyFetch)
    (now : Z) (plugin : Plugin) : result Plugin :=
  let cacheTtl := cfg_policyCacheTtlMs config in
  try_catch
    (do! fresh <- fetchEffectivePolicy outcome;
     do! storage' <- saveCachedPolicy_on (storage plugin) now fresh cacheTtl;
     Ok {| enforcerState :=
             {| ToolEnforcer.policy := Some fresh;
                killSwitchActive := killSwitchActive (enforcerState plugin);
                killSwitchMessage_ := killSwitchMessage_ (enforcerState plugin) |};
           auditLogger :=
             AuditLogger.updateAuditLevel (policy_auditLevel fresh)
               (auditLogger plugin);
           storage := storage' |})
    (fun _ => Ok plugin).

End Resolve.

End Initialize.

Module InitializeFacts.

Import FS OrgPolicyCache ToolEnforcer ToolEnforcerFacts Initialize.

Section ResolveFacts.
Context {codec : JSON CachedPolicy}.

(** X26. Stale beats nothing: when the awaited policy fetch fails (the
    request is rejected, the response is not 2xx, or its body does not
    parse), the policy is the one in the cache file however old it is,
    and [null] only when the file is missing or unreadable; the disk is
    left as it was. *)
Theorem fetch_failure_falls_back_to_stale_cache
    (config : ClawGuardPluginConfig) (outcome : PolicyFetch) (storage : Storage)
    (now : Z) :
  fetched outcome = None ->
  exists policy,
    resolve_policy_settled config outcome storage now = Ok (policy, storage)
    /\ loadCachedPolicyFallback (files storage) = Ok policy
    /\ (forall raw c, files storage !! CACHE_FILE = Some raw ->
                      JSON_parse raw = Ok c ->
                      policy = Some (cached_policy c)).
Proof.
  unfold fetched, resolve_policy_settled. intros Hf.
  destruct (fetchEffectivePolicy outcome) as [p|e]; [discriminate|].
  cbn [rbind try_catch].
  unfold loadCachedPolicyFallback, readFileSync.
  destruct (files storage !! CACHE_FILE) as [raw|]; cbn [rbind try_catch].
  - destruct (JSON_parse raw) as [c|e'] eqn:P; cbn [rbind try_catch].
    + eexists. split; [reflexivity|]. split; [reflexivity|].
      intros raw' c' [= <-] P'. congruence.
    + eexists. split; [reflexivity|]. split; [reflexivity|].
      intros raw' c' [= <-] P'. congruence.
  - eexists. split; [reflexivity|]. split; [reflexivity|]. discriminate.
Qed.

Lemma fallback_returns (disk : Disk) :
  exists policy, loadCachedPolicyFallback disk = Ok policy.
Proof.
  unfold loadCachedPolicyFallback, readFileSync.
  destruct (disk !! CACHE_FILE) as [raw|]; cbn [rbind try_catch];
    [destruct (JSON_parse raw); cbn [rbind try_catch]|]; eexists; reflexivity.
Qed.

(** X27. A fetched policy is cached for the next start, if the cache can
    be written: when the awaited fetch yields a policy and the save goes
    through, that policy is the result and is saved, so that a start
    within the TTL resolves to it from the cache without waiting for the
    network (refreshing in the background when a control plane is
    configured).  When the save throws, the fetched policy is dropped:
    the result is what the cache file holds, however old, or [null], and
    the disk is left as it was. *)
Theorem fetched_policy_serves_next_start
    (config : ClawGuardPluginConfig) (outcome : PolicyFetch) (storage : Storage)
    (p : OrgPolicy) (now next : Z) :
  fetched outcome = Some p ->
  JSON_parse (JSON_stringify
                {| cached_policy := p; fetchedAt := now;
                   ttlMs := Some (default DEFAULT_TTL_MS (cfg_policyCacheTtlMs config)) |})
    = Ok {| cached_policy := p; fetchedAt := now;
            ttlMs := Some (default DEFAULT_TTL_MS (cfg_policyCacheTtlMs config)) |} ->
  next - now <= default DEFAULT_TTL_MS (cfg_policyCacheTtlMs config) ->
  (writable storage = true ->
   exists storage',
     resolve_policy_settled config outcome storage now = Ok (Some p, storage')
     /\ resolve_policy_start config (files storage') next
        = Ok (Resolved (Some p) (hasControlPlane config)))
  /\ (writable storage = false ->
      exists policy,
        resolve_policy_settled config outcome storage now = Ok (policy, storage)
        /\ loadCachedPolicyFallback (files storage) = Ok policy).
Proof.
  unfold fetched, resolve_policy_settled, resolve_policy_start,
    saveCachedPolicy_on.
  intros Hf RT Hage.
  destruct (fetchEffectivePolicy outcome) as [p'|e]; [|discriminate].
  injection Hf as ->. split; intros W; rewrite W.
  - cbn [rbind try_catch saveCachedPolicy ensureDir mkdirSync writeFileSync
           files].
    eexists. split; [reflexivity|]. cbn [files].
    rewrite (OrgPolicyCacheMore.load_saved _ _ _ _ RT).
    cbn [fetchedAt ttlMs cached_policy].
    assert (E : default (default DEFAULT_TTL_MS
                           (Some (default DEFAULT_TTL_MS
                                    (cfg_policyCacheTtlMs config))))
                  (cfg_policyCacheTtlMs config)
                = default DEFAULT_TTL_MS (cfg_policyCacheTtlMs config)).
    { destruct (cfg_policyCacheTtlMs config); reflexivity. }
    rewrite E.
    destruct (Z.gtb_spec (next - now)
                (default DEFAULT_TTL_MS (cfg_policyCacheTtlMs config))); [lia|].
    reflexivity.
  - cbn [rbind try_catch].
    destruct (fallback_returns (files storage)) as [policy F].
    exists policy. rewrite F. split; reflexivity.
Qed.

(** The enforcer state at start-up: with a policy whose kill switch
    is active the hook blocks every tool call from the first one, giving
    the policy's message (or the default text); with no policy it blocks
    none. *)
Lemma startup_state_enforces_policy_kill_switch
    (policy : option OrgPolicy) (event : BeforeToolCallEvent) (ctx : ToolContext) :
  (forall p, policy = Some p -> killSwitch_active p = true ->
     fst (createToolEnforcerHook (initial_enforcer_state policy) event ctx)
     = Some {| block := true;
               blockReason := default DEFAULT_KILL_MESSAGE (killSwitch_message p) |})
  /\ (policy = None ->
      fst (createToolEnforcerHook (initial_enforcer_state policy) event ctx) = None).
Proof.
  split.
  - intros p -> Hk. unfold createToolEnforcerHook, initial_enforcer_state.
    cbn [killSwitchActive killSwitchMessage_]. rewrite Hk. reflexivity.
  - intros ->. reflexivity.
Qed.

(** X28. A policy refresh whose fetch yields a policy and whose save
    goes through replaces the policy, the audit level and the cache file,
    and nothing else: the kill-switch fields of the enforcement state
    stay as they were, even if the fresh policy says the kill switch is
    active, and the buffered events are kept.  A refresh whose fetch
    fails, or whose save throws, changes nothing at all: the fresh
    policy, if any, is not put in force. *)
Theorem refresh_replaces_policy_only
    (config : ClawGuardPluginConfig) (outcome : PolicyFetch) (now : Z)
    (plugin : Plugin) :
  exists plugin',
    refresh_settled config outcome now plugin = Ok plugin'
    /\ killSwitchActive (enforcerState plugin')
       = killSwitchActive (enforcerState plugin)
    /\ killSwitchMessage_ (enforcerState plugin')
       = killSwitchMessage_ (enforcerState plugin)
    /\ AuditLogger.buffer (auditLogger plugin')
       = AuditLogger.buffer (auditLogger plugin)
    /\ (forall fresh, fetched outcome = Some fresh ->
          writable (storage plugin) = true ->
          policy (enforcerState plugin') = Some fresh
          /\ AuditLogger.auditLevel (auditLogger plugin') = policy_auditLevel fresh
          /\ files (storage plugin') !! CACHE_FILE =
               Some (JSON_stringify
                       {| cached_policy := fresh; fetchedAt := now;
                          ttlMs := Some (default DEFAULT_TTL_MS
                                           (cfg_policyCacheTtlMs config)) |}))
    /\ (fetched outcome = None \/ writable (storage plugin) = false ->
        plugin' = plugin).
Proof.
  unfold refresh_settled, fetched, saveCachedPolicy_on.
  destruct (fetchEffectivePolicy outcome) as [p|e]; cbn [rbind try_catch].
  - destruct (writable (storage plugin)) eqn:W;
      cbn [rbind try_catch saveCachedPolicy ensureDir mkdirSync writeFileSync].
    + eexists. split; [reflexivity|].
      split; [reflexivity|]. split; [reflexivity|]. split; [reflexivity|].
      split.
      * intros q [= <-] _. split; [reflexivity|]. split; [reflexivity|].
        cbn [storage files]. apply lookup_insert_eq.
      * intros [H|H]; discriminate H.
    + eexists. split; [reflexivity|].
      split; [reflexivity|]. split; [reflexivity|]. split; [reflexivity|].
      split; [intros q _ H; discriminate H | reflexivity].
  - eexists. split; [reflexivity|].
    split; [reflexivity|]. split; [reflexivity|]. split; [reflexivity|].
    split; [intros q H; discriminate H | reflexivity].
Qed.

End ResolveFacts.

Definition failing_fetch : PolicyFetch :=
  FetchResponded 503 (Ok "unavailable") (Throw SyntaxError).

Definition sample_storage (w : bool) : Storage :=
  {| files := {[ CACHE_FILE := "{policy:{version:1},fetchedAt:1000,ttlMs:60000}" ]};
     writable := w |}.

Definition sample_refresh_config : ClawGuardPluginConfig :=
  {| cfg_controlPlaneUrl := Some AuditLoggerFacts.sample_url;
     cfg_orgId := None; cfg_policyCacheTtlMs := Some 60000;
     cfg_heartbeatIntervalMs := None; cfg_heartbeatFailureThreshold := None;
     cfg_auditBatchSize := None; cfg_auditFlushIntervalMs := None |}.

Lemma fetch_failure_falls_back_to_stale_cache_witness :
  resolve_policy_settled (codec := OrgPolicyCacheFacts.sample_cache_codec)
    (AuditLoggerFacts.sample_config (Some AuditLoggerFacts.sample_url))
    failing_fetch (sample_storage true) 999999999
  = Ok (Some sample_policy, sample_storage true).
Proof.
  destruct (fetch_failure_falls_back_to_stale_cache
              (codec := OrgPolicyCacheFacts.sample_cache_codec)
              (AuditLoggerFacts.sample_config (Some AuditLoggerFacts.sample_url))
              failing_fetch (sample_storage true) 999999999 eq_refl)
    as (policy & R & _ & C).
  rewrite R. f_equal. f_equal.
  apply (C "{policy:{version:1},fetchedAt:1000,ttlMs:60000}"
           OrgPolicyCacheFacts.sample_cached).
  - apply lookup_singleton_eq.
  - reflexivity.
Defined.

Lemma fetched_policy_serves_next_start_witness :
  (exists storage',
     resolve_policy_settled (codec := OrgPolicyCacheFacts.sample_cache_codec)
       sample_refresh_config
       (FetchResponded 200 (Ok "{}") (Ok sample_policy))
       {| files := ∅; writable := true |} 1000
     = Ok (Some sample_policy, storage')
     /\ resolve_policy_start (codec := OrgPolicyCacheFacts.sample_cache_codec)
          sample_refresh_config (files storage') 50000
        = Ok (Resolved (Some sample_policy) true))
  /\ (exists policy,
        resolve_policy_settled (codec := OrgPolicyCacheFacts.sample_cache_codec)
          sample_refresh_config
          (FetchResponded 200 (Ok "{}") (Ok sample_policy))
          {| files := ∅; writable := false |} 1000
        = Ok (policy, {| files := ∅; writable := false |})
        /\ loadCachedPolicyFallback
             (codec := OrgPolicyCacheFacts.sample_cache_codec) ∅ = Ok policy).
Proof.
  split.
  - apply (fetched_policy_serves_next_start
             (codec := OrgPolicyCacheFacts.sample_cache_codec)
             sample_refresh_config
             (FetchResponded 200 (Ok "{}") (Ok sample_policy))
             {| files := ∅; writable := true |} sample_policy
             1000 50000 eq_refl eq_refl); [cbn; lia | reflexivity].
  - apply (fetched_policy_serves_next_start
             (codec := OrgPolicyCacheFacts.sample_cache_codec)
             sample_refresh_config
             (FetchResponded 200 (Ok "{}") (Ok sample_policy))
             {| files := ∅; writable := false |} sample_policy
             1000 50000 eq_refl eq_refl); [cbn; lia | reflexivity].
Defined.

End InitializeFacts.

(* ===================================================================== *)
(** * index.ts: the hook on the real logger, and authentication          *)
(* ===================================================================== *)

Module Wiring.

Import FS ToolEnforcer ToolEnforcerFacts AuditLogger AuditLoggerFacts TokenStore.

Section Hook.
Context {codec : JSON AuditEvent}.

(** [api.on("before_tool_call", createToolEnforcerHook(enforcerState,
    auditLogger))]: a run of the hook whose [enqueue] calls go to the
    audit logger, at clock reading [now]. *)
Definition before_tool_call (state : ToolEnforcerState) (now : Z)
    (event : BeforeToolCallEvent) (ctx : ToolContext) (w : World)
  : option BeforeToolCallResult * result World :=
  let r := createToolEnforcerHook state event ctx in
  (fst r, enqueue_all (map (fun p => (now, p)) (snd r)) w).

End Hook.

Section Authenticate.
Context {codec : JSON Session}.

(** Where step 1 of [initializeClawGuard] stands after its synchronous
    part. *)
Inductive AuthStep : Type :=
| Authenticated (session : Session)
| Unauthenticated
| Refreshing (refreshToken : string).

(** Step 1, "Authenticate", up to its [await]. *)
Definition authenticate_start (config : ClawGuardPluginConfig) (disk : Disk)
    (now : Z) : result AuthStep :=
  do! session <- loadSession disk;
  if negb (isSessionValid now session) then
    match session with
    | Some s =>
        match refreshToken s with
        | Some token =>
            if JSString.truthy token && Initialize.hasControlPlane config
            then Ok (Refreshing token)
            else Ok Unauthenticated
        | None => Ok Unauthenticated
        end
    | None => Ok Unauthenticated
    end
  else
    match session with
    | Some s => Ok (Authenticated s)
    | None => Ok Unauthenticated
    end.

(** Step 1 from the point where [refreshSessionToken] settles, with the
    session it resolved to or the error it rejected with. *)
Definition authenticate_settled (refreshed : result Session) (disk : Disk)
  : result (AuthStep * Disk) :=
  try_catch
    (do! session <- refreshed;
     do! disk' <- saveSession disk session;
     Ok (Authenticated session, disk'))
    (fun _ => Ok (Unauthenticated, disk)).

End Authenticate.

End Wiring.

Module WiringFacts.

Import FS ToolEnforcer ToolEnforcerFacts AuditLogger AuditLoggerFacts.
Import TokenStore Wiring.

Section HookFacts.
Context {codec : JSON AuditEvent}.

(** X29. What a tool call leaves in the audit buffer.  At level [off]
    nothing, though the call is decided all the same.  At another level
    (the buffer being below the batch size) exactly one event: for the
    normalized tool name, stamped with the clock and the logger's user
    and organisation, with outcome [blocked] or [allowed] as decided.  At
    level [metadata] that event has no metadata, so the reason of a block
    is not recorded; at level [full] a blocked call's event carries its
    reason. *)
Theorem tool_call_audit_record
    (state : ToolEnforcerState) (now : Z) (event : BeforeToolCallEvent)
    (ctx : ToolContext) (w : World) :
  Z.of_nat (length (buffer (logger w))) + 1 < batchSize (logger w) ->
  fst (before_tool_call state now event ctx w)
    = fst (createToolEnforcerHook state event ctx)
  /\ (auditLevel (logger w) = off ->
      snd (before_tool_call state now event ctx w) = Ok w)
  /\ (auditLevel (logger w) <> off ->
      exists e,
        snd (before_tool_call state now event ctx w)
          = Ok {| logger := set_buffer (buffer (logger w) ++ [e]) (logger w);
                  disk := disk w; inflight := inflight w |}
        /\ ev_toolName e = Some (normalizeToolName (toolName event))
        /\ ev_timestamp e = now
        /\ ev_userId e = userId (logger w)
        /\ ev_orgId e = orgId (logger w)
        /\ ev_outcome e = (if blocks (createToolEnforcerHook state event ctx)
                          then blocked else allowed)
        /\ (auditLevel (logger w) = metadata -> ev_metadata e = None)
        /\ (auditLevel (logger w) = full ->
            blocks (createToolEnforcerHook state event ctx) = true ->
            exists r, ev_metadata e = Some [("reason", JStr r)])).
Proof.
  intros Hb. unfold before_tool_call. cbn [fst snd].
  destruct (ToolEnforcerMore.audit_call_spec state event ctx)
    as (p & A & _ & Hn & _ & _ & Ho & Hr).
  unfold audited in A. rewrite A. cbn [map enqueue_all].
  split; [reflexivity|]. split.
  - intros Hoff. unfold enqueue. now rewrite Hoff.
  - intros Hon. rewrite (enqueue_below_batch _ _ _ Hon Hb). cbn [rbind].
    exists (stored (logger w) now p). split; [reflexivity|].
    unfold stored. cbn. repeat split; try assumption.
    + intros ->. reflexivity.
    + intros -> Hbl. cbn. now apply Hr.
Qed.

End HookFacts.

Section AuthFacts.
Context {codec : JSON Session}.

(** X30. Start-up authentication.  The plugin is authenticated from
    the session file only by a session that is valid at that time.  A
    session that is not valid leads to a refresh only if it has a
    non-empty refresh token and a control plane is configured; with no
    session file there is neither.  A refresh that fails leaves the disk
    as it was and the plugin unauthenticated. *)
Theorem authentication_outcomes
    (config : ClawGuardPluginConfig) (disk : Disk) (now : Z) :
  exists step,
    authenticate_start config disk now = Ok step
    /\ (forall s, step = Authenticated s ->
          loadSession disk = Ok (Some s) /\ isSessionValid now (Some s) = true)
    /\ (forall token, step = Refreshing token ->
          token <> EmptyString
          /\ Initialize.hasControlPlane config = true
          /\ exists s, loadSession disk = Ok (Some s)
                       /\ refreshToken s = Some token
                       /\ isSessionValid now (Some s) = false)
    /\ (disk !! SESSION_FILE = None -> step = Unauthenticated)
    /\ (forall e d, authenticate_settled (Throw e) d = Ok (Unauthenticated, d)).
Proof.
  unfold authenticate_start.
  assert (L : exists r, loadSession disk = Ok r
                        /\ (disk !! SESSION_FILE = None -> r = None)).
  { unfold loadSession, readFileSync.
    destruct (disk !! SESSION_FILE) as [raw|]; cbn [rbind try_catch].
    - destruct (JSON_parse raw); cbn [rbind try_catch]; eexists;
        (split; [reflexivity | discriminate]).
    - eexists. split; reflexivity. }
  destruct L as (r & L & Lnone). rewrite L. cbn [rbind].
  destruct r as [s|].
  - destruct (isSessionValid now (Some s)) eqn:V; cbn [negb].
    + eexists. split; [reflexivity|]. split.
      * intros s' [= <-]. auto.
      * split; [discriminate|]. split; [|reflexivity].
        intros H. specialize (Lnone H). discriminate.
    + destruct (refreshToken s) as [token|] eqn:R.
      * destruct (JSString.truthy token) eqn:T; cbn [andb].
        -- destruct (Initialize.hasControlPlane config) eqn:U.
           ++ eexists. split; [reflexivity|]. split; [discriminate|]. split.
              ** intros token' [= <-]. split; [now destruct token|].
                 split; [reflexivity|]. now exists s.
              ** split; [|reflexivity]. intros H. specialize (Lnone H). discriminate.
           ++ eexists. split; [reflexivity|]. split; [discriminate|].
              split; [discriminate|]. split; reflexivity.
        -- eexists. split; [reflexivity|]. split; [discriminate|].
           split; [discriminate|]. split; reflexivity.
      * eexists. split; [reflexivity|]. split; [discriminate|].
        split; [discriminate|]. split; reflexivity.
  - cbn. eexists. split; [reflexivity|]. split; [discriminate|].
    split; [discriminate|]. split; reflexivity.
Qed.

End AuthFacts.

Lemma tool_call_audit_record_witness :
  snd (before_tool_call (codec := sample_codec)
         {| policy := None; killSwitchActive := true;
            killSwitchMessage_ := None |}
         2000 {| toolName := "Bash" |} sample_ctx
         {| logger := sample_logger sample_url []; disk := ∅; inflight := [] |})
  = Ok {| logger := sample_logger sample_url [sample_event_2]; disk := ∅;
          inflight := [] |}.
Proof.
  destruct (tool_call_audit_record (codec := sample_codec)
              {| policy := None; killSwitchActive := true;
                 killSwitchMessage_ := None |}
              2000 {| toolName := "Bash" |} sample_ctx
              {| logger := sample_logger sample_url []; disk := ∅; inflight := [] |})
    as (_ & _ & (e & E & _)); [cbn; lia | discriminate |].
  reflexivity.
Defined.

End WiringFacts.
